(** * det_multi: evaluation of an ensemble of density estimation trees

    A shallow embedding of [src/mlpack/methods/det/det_multi_main.cpp]:
    the model-loading loop, the per-point weighted reduction over the
    loaded trees, the line-by-line record loop with its [std::stringstream]
    tokenisation, and the binding of the input and output streams.

    Conventions.
    - [double] and [long double] values are IEEE-754 binary floats as
      specified by the standard library's [SpecFloat]; every operation
      rounds to nearest-even in the format of its C++ type.
    - [size_t] values that take part in arithmetic are integers in [Z]
      reduced modulo [2^64]; sizes of in-memory containers are [nat].
    - [std::istream] is a character buffer with its [eofbit] and [failbit].
    - [Log::Info], [Log::Warn] and [Log::Fatal] append to a diagnostic
      trace; [Log::Fatal] ends the run. The [Timer] calls and the decimal
      rendering done by [operator<<] on the output are left out: the
      output is the sequence of [double] values handed to it. *)

From Stdlib Require Import ZArith Bool Ascii String DecimalString List Lia.
From Stdlib Require Import Floats.SpecFloat.
From Stdlib Require Import Permutation.
Import ListNotations.

Local Open Scope Z_scope.

(** * Definitions *)

(** ** Floating-point formats *)

Module Fp.

Record format := { prec : Z; emax : Z }.

(** [double]: IEEE-754 binary64. *)
Definition binary64 : format := {| prec := 53; emax := 1024 |}.

(** [long double] as the x86-64 System V ABI has it: the 80-bit x87
    extended format, 64 bits of significand. *)
Definition x87_extended : format := {| prec := 64; emax := 16384 |}.

(** Conversion of a floating value to format [f] (a C++ cast). *)
Definition round (f : format) (x : spec_float) : spec_float :=
  match x with
  | S754_finite s m e => binary_round (prec f) (emax f) s m e
  | _ => x
  end.

(** Conversion of an integer to format [f]. *)
Definition of_Z (f : format) (n : Z) : spec_float :=
  binary_normalize (prec f) (emax f) n 0 false.

Definition add (f : format) := SFadd (prec f) (emax f).
Definition mul (f : format) := SFmul (prec f) (emax f).
Definition div (f : format) := SFdiv (prec f) (emax f).

(** Largest finite value of the format. *)
Definition max_float (f : format) := SFmax_float (prec f) (emax f).

End Fp.

Definition double := spec_float.
Definition long_double := spec_float.

Definition long_double_format : Fp.format := Fp.x87_extended.

Definition ld_add : long_double -> long_double -> long_double := Fp.add long_double_format.
Definition ld_mul : long_double -> long_double -> long_double := Fp.mul long_double_format.
Definition ld_div : long_double -> long_double -> long_double := Fp.div long_double_format.

(** [(long double)val] for a [double]. *)
Definition ld_of_double (x : double) : long_double := Fp.round long_double_format x.
(** Implicit conversion of a [size_t] operand to [long double]. *)
Definition ld_of_size (n : Z) : long_double := Fp.of_Z long_double_format n.
(** [(double)density]. *)
Definition double_of_ld (x : long_double) : double := Fp.round Fp.binary64 x.

(** The literal [.0]. *)
Definition zero : double := S754_zero false.

(** ** [size_t] arithmetic *)

Definition SIZE_MODULUS : Z := 2 ^ 64.

Definition size_add (a b : Z) : Z := (a + b) mod SIZE_MODULUS.
Definition size_sub (a b : Z) : Z := (a - b) mod SIZE_MODULUS.

(** ** [for] statements

    [for_range n cond body s] is
    [for (size_t i = 0; cond && i < n; ++i) body(i)] run from state [s]. *)

Fixpoint for_upto {S : Type} (steps i : nat) (cond : S -> bool)
    (body : nat -> S -> S) (s : S) : S :=
  match steps with
  | O => s
  | Datatypes.S k =>
      if cond s then for_upto k (Datatypes.S i) cond body (body i s) else s
  end.

Definition for_range {S : Type} (n : nat) (cond : S -> bool)
    (body : nat -> S -> S) (s : S) : S :=
  for_upto n 0 cond body s.

Definition always {S : Type} (_ : S) : bool := true.

(** ** The trained tree, [DTree<arma::mat, int>]

    [dtree.hpp] is outside this file; the program uses four members of a
    loaded tree, which are the fields here. [ComputeValue] is the density
    the tree assigns to a query vector. *)

Definition vec := list double.

Record DET := {
  MaxVals_n_elem : nat;            (* tree->MaxVals().n_elem *)
  Start : Z;                       (* model->Start() *)
  End_ : Z;                        (* model->End() *)
  ComputeValue : vec -> double     (* model->ComputeValue(data) *)
}.

(** ** The reduction over the models (lines 140-160) *)

Record accum := { density : long_double; count : Z }.

Definition accum0 : accum := {| density := zero; count := 0 |}.

Definition no_tree : DET :=
  {| MaxVals_n_elem := 0; Start := 0; End_ := 0; ComputeValue := fun _ => zero |}.

(** Body of the loop over [m]; [models[m]] is always in range there. *)
Definition model_body (models : list DET) (data : vec) (m : nat) (a : accum) : accum :=
  let model := nth m models no_tree in
  let val := ComputeValue model data in
  let cnt := size_sub (End_ model) (Start model) in
  {| density := ld_add (density a) (ld_mul (ld_of_double val) (ld_of_size cnt));
     count := size_add (count a) cnt |}.

(** The loop run one iteration after the other in index order. *)
Definition reduce (models : list DET) (data : vec) : accum :=
  for_range (length models) always (model_body models data) accum0.

(** The loop, then [density /= count] and the cast of line 160. *)
Definition Evaluate (models : list DET) (data : vec) : double :=
  let a := reduce models data in
  double_of_ld (ld_div (density a) (ld_of_size (count a))).

(** *** The combination formula, as the specification words it *)

(** [trainingPartitionSize] of a tree. *)
Definition weight (m : DET) : Z := size_sub (End_ m) (Start m).

Definition term (data : vec) (m : DET) : long_double :=
  ld_mul (ld_of_double (ComputeValue m data)) (ld_of_size (weight m)).

(** Sum of the terms [v_m * w_m], accumulated in [long double]. *)
Definition weighted_sum (models : list DET) (data : vec) : long_double :=
  fold_left ld_add (map (term data) models) zero.

(** Sum of the weights, as an integer. *)
Definition total_weight (models : list DET) : Z :=
  fold_right Z.add 0 (map weight models).

Definition weighted_average (models : list DET) (data : vec) : double :=
  double_of_ld (ld_div (weighted_sum models data) (ld_of_size (total_weight models))).

(** One turn of the loop, on the tree itself. *)
Definition model_step (data : vec) (model : DET) (a : accum) : accum :=
  {| density := ld_add (density a) (term data model);
     count := size_add (count a) (weight model) |}.

(** ** [std::istream]

    A stream is the characters not yet read together with two state
    flags. [badbit] is never raised by the operations used here. *)

Record istream := { buf : list ascii; eofbit : bool; failbit : bool }.

Definition good (s : istream) : bool := negb (eofbit s) && negb (failbit s).
Definition eof (s : istream) : bool := eofbit s.

Definition set_failbit (s : istream) : istream :=
  {| buf := buf s; eofbit := eofbit s; failbit := true |}.

(** A stream freshly opened on [text]: [std::stringstream x(text)], an
    [ifstream] whose file could be opened, and [cin]. *)
Definition stream_of (text : list ascii) : istream :=
  {| buf := text; eofbit := false; failbit := false |}.

(** An [ifstream] whose file could not be opened. *)
Definition failed_stream : istream :=
  {| buf := []; eofbit := false; failbit := true |}.

Definition is_nil {A : Type} (l : list A) : bool :=
  match l with [] => true | _ => false end.

Definition newline : ascii := "010"%char.

(** [isspace] in the "C" locale: space, and the controls 9 to 13. *)
Definition isspace (c : ascii) : bool :=
  let n := nat_of_ascii c in
  (Nat.eqb n 32 || (Nat.leb 9 n && Nat.leb n 13))%bool.

Fixpoint skipws (s : list ascii) : list ascii :=
  match s with
  | c :: r => if isspace c then skipws r else s
  | [] => []
  end.

(** *** [std::getline(is, str)]

    [read_line] takes characters up to the first newline, which is
    consumed and dropped; the flag tells that the end of the buffer came
    first. [getline] raises [eofbit] in that case, and [failbit] as well
    when no character at all was taken. *)
Fixpoint read_line (s : list ascii) : list ascii * list ascii * bool :=
  match s with
  | [] => ([], [], true)
  | c :: r =>
      if Ascii.eqb c newline then ([], r, false)
      else let '(l, r', e) := read_line r in (c :: l, r', e)
  end.

Definition getline (s : istream) (str : list ascii) : istream * list ascii :=
  if good s then
    let '(l, r, e) := read_line (buf s) in
    ({| buf := r; eofbit := e; failbit := (e && is_nil l)%bool |}, l)
  else (set_failbit s, str).

(** *** [is >> val] for a [double]

    The numeric stage, [std::num_get<char>::get], belongs to the C++
    library: it is a parameter [num_get] of everything below. Applied to the
    unread characters (the first of them not a space) it reports what was
    converted and what is left unread. *)

Inductive conversion :=
| Converted (v : double)       (* the field is a number in range *)
| NoConversion                 (* the field is not a number: 0 is stored *)
| OutOfRange (v : double).     (* a number out of range: [v] is stored *)

Record num_result := { conv : conversion; unread : list ascii }.

Definition num_get_t := list ascii -> num_result.

Definition stores (c : conversion) : double :=
  match c with
  | Converted v => v
  | NoConversion => zero
  | OutOfRange v => v
  end.

Definition fails (c : conversion) : bool :=
  match c with Converted _ => false | _ => true end.

Definition blank (s : list ascii) : bool := forallb isspace s.

(** What may follow a token: the end of the line or a space. *)
Definition ends_token (rest : list ascii) : bool :=
  match rest with [] => true | c :: _ => isspace c end.

Definition begins_token (tok : list ascii) : bool :=
  match tok with [] => false | c :: _ => negb (isspace c) end.

Fixpoint set_at (i : nat) (v : double) (l : vec) : vec :=
  match l, i with
  | [], _ => []
  | _ :: t, O => v :: t
  | h :: t, S j => h :: set_at j v t
  end.

(** Values followed by zeros, [k] entries in all. *)
Fixpoint pad (k : nat) (l : vec) : vec :=
  match k with
  | O => []
  | S k' =>
      match l with
      | [] => zero :: pad k' []
      | x :: l' => x :: pad k' l'
      end
  end.

Record parser := { line_stream : istream; data : vec }.

Record processor := {
  input : istream;
  line_string : list ascii;
  output : list double
}.

Section Extraction.

Variable num_get : num_get_t.

(** The sentry fails on a stream that is not good, and when skipping
    white space runs into the end: [val] is then left as it was. The
    numeric stage raises [eofbit] exactly when it ran into the end. *)
Definition extract (s : istream) (val : double) : istream * double :=
  if good s then
    match skipws (buf s) with
    | [] => ({| buf := []; eofbit := true; failbit := true |}, val)
    | c :: r =>
        let res := num_get (c :: r) in
        ({| buf := unread res; eofbit := is_nil (unread res);
            failbit := fails (conv res) |}, stores (conv res))
    end
  else (set_failbit s, val).

(** *** One record (lines 132-138) *)

Definition parse_cond (p : parser) : bool := negb (eof (line_stream p)).

Definition parse_body (i : nat) (p : parser) : parser :=
  let '(s, v) := extract (line_stream p) (nth i (data p) zero) in
  {| line_stream := s; data := set_at i v (data p) |}.

Definition parse_record (dataSize : nat) (line : list ascii) : vec :=
  data (for_range dataSize parse_cond parse_body
          {| line_stream := stream_of line; data := repeat zero dataSize |}).

(** The coordinates after [n] more turns of the loop of line 137. *)
Definition coords (n i : nat) (s : istream) (d : vec) : vec :=
  data (for_upto n i parse_cond parse_body {| line_stream := s; data := d |}).

(** The stream after a token that [rest] follows. *)
Definition after_token (rest : list ascii) : istream :=
  {| buf := rest; eofbit := is_nil rest; failbit := false |}.

(** [tok] is a numeric token of value [v]: wherever it ends a line or is
    followed by a space, the numeric stage converts it whole to [v]. *)
Definition reads (tok : list ascii) (v : double) : Prop :=
  begins_token tok = true
  /\ forall rest, ends_token rest = true ->
       num_get (tok ++ rest) = {| conv := Converted v; unread := rest |}.

(** [fields line vs rest]: [line] is numeric tokens of values [vs], each
    after optional spaces and the next one set off by a space, followed by
    [rest]. *)
Inductive fields : list ascii -> list double -> list ascii -> Prop :=
| fields_done (rest : list ascii) : fields rest [] rest
| fields_more (ws tok : list ascii) (v : double) (line : list ascii)
    (vs : list double) (rest : list ascii) :
    blank ws = true ->
    reads tok v ->
    ends_token line = true ->
    fields line vs rest ->
    fields (ws ++ tok ++ line) (v :: vs) rest.

(** What the characters after the last token leave in the coordinates:
    nothing when they are blank, the value stored by a failed extraction
    otherwise. *)
Inductive ending : list ascii -> list double -> Prop :=
| ending_blank (rest : list ascii) : blank rest = true -> ending rest []
| ending_failure (rest : list ascii) (c : ascii) (r : list ascii) :
    skipws rest = c :: r ->
    fails (conv (num_get (c :: r))) = true ->
    ending rest [stores (conv (num_get (c :: r)))].

(** *** The record loop (lines 126-161)

    [output] collects the values sent to [*output], oldest first. The
    loop is iterated under a bound; [None] means the bound was reached
    before the loop left. *)

Definition estimate (models : list DET) (dataSize : nat) (line : list ascii) : double :=
  Evaluate models (parse_record dataSize line).

Fixpoint record_loop (bound : nat) (models : list DET) (dataSize : nat)
    (p : processor) : option processor :=
  match bound with
  | O => None
  | S k =>
      if good (input p) then
        let '(s, line) := getline (input p) (line_string p) in
        if Nat.eqb (length line) 0 then
          Some {| input := s; line_string := line; output := output p |}
        else
          let d := Evaluate models (parse_record dataSize line) in
          record_loop k models dataSize
            {| input := s; line_string := line; output := output p ++ [d] |}
      else Some p
  end.

Definition process (models : list DET) (dataSize : nat) (s : istream)
    : option (list double) :=
  option_map output
    (record_loop (S (length (buf s))) models dataSize
       {| input := s; line_string := []; output := [] |}).

End Extraction.

(** *** Lines and records of a text *)

(** The lines of a text: what stands between its newlines. *)
Fixpoint lines (s : list ascii) : list (list ascii) :=
  match s with
  | [] => [[]]
  | c :: r =>
      if Ascii.eqb c newline then [] :: lines r
      else match lines r with
           | l :: ls => (c :: l) :: ls
           | [] => [[c]]
           end
  end.

(** The lines that come before the first empty one. *)
Fixpoint before_blank (ls : list (list ascii)) : list (list ascii) :=
  match ls with
  | [] => []
  | l :: rest => if is_nil l then [] else l :: before_blank rest
  end.

Definition records_of (text : list ascii) : list (list ascii) :=
  before_blank (lines text).

(** A record: a line that is not empty. *)
Definition is_record (r : list ascii) : bool :=
  (negb (is_nil r) && forallb (fun c => negb (Ascii.eqb c newline)) r)%bool.

(** Records written one per line. *)
Definition written (recs : list (list ascii)) : list ascii :=
  flat_map (fun r => r ++ [newline]) recs.

(** ** Diagnostics

    One entry per logging statement: its stream and the text sent to it.
    A run either goes on with a value, is ended by [Log::Fatal], or
    leaves the record loop unfinished at its bound. *)

Inductive level := Info | Warn | Fatal.

Definition trace := list (level * string).

Inductive outcome (A : Type) :=
| Next (a : A)
| Halted
| Unfinished.

Arguments Next {A} a.
Arguments Halted {A}.
Arguments Unfinished {A}.

Definition Run (A : Type) : Type := trace -> trace * outcome A.

Definition ret {A : Type} (a : A) : Run A := fun t => (t, Next a).

Definition bind {A B : Type} (c : Run A) (k : A -> Run B) : Run B :=
  fun t =>
    match c t with
    | (t', Next a) => k a t'
    | (t', Halted) => (t', Halted)
    | (t', Unfinished) => (t', Unfinished)
    end.

Notation "x <- c ;; k" := (bind c (fun x => k))
  (at level 61, c at next level, right associativity).
Notation "c ;;; k" := (bind c (fun _ => k))
  (at level 61, right associativity).

Definition say (l : level) (msg : string) : Run unit :=
  fun t => (t ++ [(l, msg)], Next tt).

(** Modelled from the spec: [Log::Fatal], whose class is not in this file;
    a fatal diagnostic is written and the process terminates. *)
Definition fatal {A : Type} (msg : string) : Run A :=
  fun t => (t ++ [(Fatal, msg)], Halted).

Definition when_ (b : bool) (c : Run unit) : Run unit :=
  if b then c else ret tt.

Definition assert_diagnostic : string := "Assert Failed."%string.

(** Modelled from the spec: [Log::Assert(condition)], whose definition is
    not in this file; when the condition is false the caller treats it as
    fatal, the process terminating with a diagnostic. *)
Definition Log_Assert (condition : bool) : Run unit :=
  if condition then ret tt else fatal assert_diagnostic.

Definition texts (l : level -> bool) (t : trace) : list string :=
  map snd (filter (fun e => l (fst e)) t).

Definition is_Warn (l : level) : bool := match l with Warn => true | _ => false end.
Definition is_Fatal (l : level) : bool := match l with Fatal => true | _ => false end.

Definition warnings : trace -> list string := texts is_Warn.
Definition fatals : trace -> list string := texts is_Fatal.

(** [name] occurs in [msg]. *)
Fixpoint mentions (name msg : string) : bool :=
  (String.prefix name msg ||
   match msg with
   | String _ r => mentions name r
   | EmptyString => false
   end)%bool.

(** ** The command line and the outside world *)

Record cli := {
  model_file : option (list string);     (* --model_file, one or more *)
  test_file : option string;             (* --test_file *)
  estimates_file : option string         (* --estimates_file *)
}.

Definition HasParam {A : Type} (p : option A) : bool :=
  match p with Some _ => true | None => false end.

Record world := {
  model_store : string -> option DET;    (* what a model resource holds *)
  readable : string -> option (list ascii);  (* files that open for reading *)
  writable : string -> bool;             (* files that open for writing *)
  cin : list ascii                       (* standard input *)
}.

(** Modelled from the spec: [data::Load(file, "det_model", tree, true)],
    whose definition is not in this file; a resource that deserializes
    gives its tree, one that does not leaves [tree] null and the run goes
    on. *)
Definition Load (w : world) (file : string) : option DET := model_store w file.

(** ** Loading (lines 62-86) *)

Module Loader.

Record state := { log : trace; models : list DET; dataSize : nat }.

Definition body (w : world) (modelFiles : list string) (i : nat) (s : state) : state :=
  let file := nth i modelFiles ""%string in
  let log1 := log s ++ [(Info, "Model loading " ++ file ++ "...")%string] in
  match Load w file with
  | None =>
      {| log := log1 ++ [(Warn, " failed loading " ++ file)%string];
         models := models s;
         dataSize := dataSize s |}
  | Some tree =>
      {| log := log1 ++ [(Info, " done."%string)];
         models := models s ++ [tree];
         dataSize := Nat.max (dataSize s) (MaxVals_n_elem tree) |}
  end.

Definition run (w : world) (modelFiles : list string) (t : trace) : state :=
  for_range (length modelFiles) always (body w modelFiles)
    {| log := t; models := []; dataSize := 0 |}.

End Loader.

(** One turn of the loading loop, on the identifier itself. *)
Definition load_step (w : world) (file : string) (s : Loader.state) : Loader.state :=
  Loader.body w [file] 0 s.

(** The trees of the resources that deserialize, in the order given. *)
Definition successes (w : world) (modelFiles : list string) : list DET :=
  flat_map (fun f => match Load w f with Some tree => [tree] | None => [] end) modelFiles.

(** The identifiers that fail to deserialize, in the order given. *)
Definition failures (w : world) (modelFiles : list string) : list string :=
  filter (fun f => negb (HasParam (Load w f))) modelFiles.

Definition decimal (n : nat) : string := NilEmpty.string_of_uint (Nat.to_uint n).

(** The trace when loading starts (line 65). *)
Definition banner (modelFiles : list string) : trace :=
  [(Info, (decimal (length modelFiles) ++ " models provided.")%string)].

Definition load_models (w : world) (modelFiles : list string) : Run (list DET * nat) :=
  fun t =>
    let s := Loader.run w modelFiles t in
    (Loader.log s, Next (Loader.models s, Loader.dataSize s)).

(** ** Binding of the input and the output (lines 88-118) *)

Definition bind_input (w : world) (a : cli) : Run istream :=
  match test_file a with
  | None =>
      say Info "The estimation will operate on the standard input." ;;;
      ret (stream_of (cin w))
  | Some fName =>
      say Info ("Processing " ++ fName ++ "...") ;;;
      let input :=
        match readable w fName with
        | Some text => stream_of text
        | None => failed_stream
        end in
      (if negb (good input) then fatal " failed!" else say Info " done.") ;;;
      ret input
  end.

Definition bind_output (w : world) (a : cli) : Run unit :=
  match estimates_file a with
  | None =>
      say Info "The estimation will be printed on the standard output."
  | Some fName =>
      when_ (negb (writable w fName))
        (fatal ("Failed to open " ++ fName ++ " for writing!"))
  end.

(** The text that the input stream is bound to, if it opens. *)
Definition input_text (w : world) (a : cli) : option (list ascii) :=
  match test_file a with
  | None => Some (cin w)
  | Some fName => readable w fName
  end.

Definition output_opens (w : world) (a : cli) : bool :=
  match estimates_file a with
  | None => true
  | Some fName => writable w fName
  end.

(** ** [main] *)

Definition run_records (num_get : num_get_t) (models : list DET) (dataSize : nat)
    (s : istream) : Run (list double) :=
  fun t =>
    match process num_get models dataSize s with
    | Some out => (t, Next out)
    | None => (t, Unfinished)
    end.

Definition main (num_get : num_get_t) (a : cli) (w : world) : Run (list double) :=
  when_ (negb (HasParam (model_file a)))
    (fatal "You need an already built model(s), in order to run the estimation!") ;;;
  let modelFiles := match model_file a with Some l => l | None => [] end in
  say Info (decimal (length modelFiles) ++ " models provided.") ;;;
  loaded <- load_models w modelFiles ;;
  let '(models, dataSize) := loaded in
  Log_Assert (Nat.ltb 0 dataSize) ;;;
  input <- bind_input w a ;;
  bind_output w a ;;;
  run_records num_get models dataSize input.

(** ** A numeric stage for decimal notation

    [Decimal.num_get] reads an optional sign, digits with at most one
    decimal point, and an optional exponent [e] or [E] with its own sign
    and digits; the field is converted to the nearest [double]. A field
    without a mantissa digit, or with an exponent mark and no exponent
    digit, does not convert. A value beyond the finite doubles is out of
    range: the extraction fails and the largest finite [double] of its
    sign is stored, as libstdc++ does. *)

Module Decimal.

Definition digit (c : ascii) : option Z :=
  let n := nat_of_ascii c in
  if (Nat.leb 48 n && Nat.leb n 57)%bool then Some (Z.of_nat n - 48) else None.

(** Leading digits of [s] appended to the number [acc]: the number, how
    many digits were read, and the rest. *)
Fixpoint digits (acc : Z) (s : list ascii) : Z * nat * list ascii :=
  match s with
  | c :: r =>
      match digit c with
      | Some d => let '(v, n, r') := digits (10 * acc + d) r in (v, S n, r')
      | None => (acc, O, s)
      end
  | [] => (acc, O, [])
  end.

Definition sign (s : list ascii) : bool * list ascii :=
  match s with
  | "+"%char :: r => (false, r)
  | "-"%char :: r => (true, r)
  | _ => (false, s)
  end.

Definition point (s : list ascii) : option (list ascii) :=
  match s with
  | "."%char :: r => Some r
  | _ => None
  end.

Definition exponent_mark (s : list ascii) : option (list ascii) :=
  match s with
  | "e"%char :: r => Some r
  | "E"%char :: r => Some r
  | _ => None
  end.

(** [(-1)^neg * m * 10^e] rounded to nearest-even in binary64. *)
Definition to_double (neg : bool) (m e : Z) : double :=
  match m with
  | Z0 => S754_zero neg
  | Zpos p =>
      if 0 <=? e then
        binary_round 53 1024 neg (p * Z.to_pos (10 ^ e))%positive 0
      else
        let '(q, e2, l) := SFdiv_core_binary 53 1024 m 0 (10 ^ (- e)) 0 in
        binary_round_aux 53 1024 neg q e2 l
  | Zneg _ => S754_nan
  end.

Definition DBL_MAX : double := Fp.max_float Fp.binary64.

Definition finish (neg : bool) (m e : Z) (rest : list ascii) : num_result :=
  match to_double neg m e with
  | S754_infinity s =>
      {| conv := OutOfRange (if s then SFopp DBL_MAX else DBL_MAX); unread := rest |}
  | v => {| conv := Converted v; unread := rest |}
  end.

Definition num_get : num_get_t := fun s =>
  let '(neg, s1) := sign s in
  let '(m1, n1, s2) := digits 0 s1 in
  let '(m2, n2, s3) :=
    match point s2 with
    | Some r => digits m1 r
    | None => (m1, O, s2)
    end in
  if Nat.eqb (n1 + n2) 0 then {| conv := NoConversion; unread := s3 |}
  else
    match exponent_mark s3 with
    | None => finish neg m2 (- Z.of_nat n2) s3
    | Some s4 =>
        let '(eneg, s5) := sign s4 in
        let '(x, nx, s6) := digits 0 s5 in
        if Nat.eqb nx 0 then {| conv := NoConversion; unread := s6 |}
        else finish neg m2 ((if eneg then - x else x) - Z.of_nat n2) s6
    end.

Definition chars (s : string) : list ascii := list_ascii_of_string s.

(** A decimal numeral: it starts a token and the numeric stage converts
    all of it. *)
Definition token (tok : list ascii) : bool :=
  (begins_token tok
   && negb (fails (conv (num_get tok)))
   && is_nil (unread (num_get tok)))%bool.

(** The value of a numeral. *)
Definition value (tok : list ascii) : double := stores (conv (num_get tok)).

(** Tokens written on one line, a space before each but the first. *)
Definition spaced (toks : list (list ascii)) : list ascii :=
  flat_map (fun t => " "%char :: t) toks.

Definition line_of (toks : list (list ascii)) : list ascii :=
  match toks with
  | [] => []
  | t :: ts => t ++ spaced ts
  end.

End Decimal.

(** The [double] that a decimal numeral denotes. *)
Definition dbl (s : string) : double :=
  stores (conv (Decimal.num_get (Decimal.chars s))).

(** ** The loop over the models as OpenMP runs it (lines 143-156)

    [#pragma omp parallel for default(shared)] hands the iterations to a
    team of workers. [density] and [count] are declared outside the loop,
    so they are shared; [density += ...] and [count += ...] are each a read
    of the shared variable followed by a write of the sum. A worker owns
    a list of iterations and performs the four accesses of each in program
    order; a schedule names, access by access, the worker that moves. *)

Module Omp.

Inductive pc :=
| ReadDensity
| WriteDensity (seen : long_double)
| ReadCount
| WriteCount (seen : Z).

Record worker := { todo : list nat; at_ : pc }.

Record team := { shared : accum; workers : list worker }.

Definition access (models : list DET) (data : vec) (a : accum) (w : worker)
    : option (accum * worker) :=
  match todo w with
  | [] => None
  | m :: rest =>
      let model := nth m models no_tree in
      let val := ComputeValue model data in
      let cnt := size_sub (End_ model) (Start model) in
      match at_ w with
      | ReadDensity =>
          Some (a, {| todo := m :: rest; at_ := WriteDensity (density a) |})
      | WriteDensity seen =>
          Some ({| density := ld_add seen (ld_mul (ld_of_double val) (ld_of_size cnt));
                   count := count a |},
                {| todo := m :: rest; at_ := ReadCount |})
      | ReadCount =>
          Some (a, {| todo := m :: rest; at_ := WriteCount (count a) |})
      | WriteCount seen =>
          Some ({| density := density a; count := size_add seen cnt |},
                {| todo := rest; at_ := ReadDensity |})
      end
  end.

Fixpoint replace (i : nat) (w : worker) (l : list worker) : list worker :=
  match l, i with
  | [], _ => []
  | _ :: t, O => w :: t
  | h :: t, S j => h :: replace j w t
  end.

(** Worker [i] performs its next access; [None] if it has none left. *)
Definition step (models : list DET) (data : vec) (i : nat) (t : team) : option team :=
  match nth_error (workers t) i with
  | None => None
  | Some w =>
      match access models data (shared t) w with
      | None => None
      | Some (a, w') => Some {| shared := a; workers := replace i w' (workers t) |}
      end
  end.

Fixpoint run (models : list DET) (data : vec) (schedule : list nat) (t : team)
    : option team :=
  match schedule with
  | [] => Some t
  | i :: rest =>
      match step models data i t with
      | None => None
      | Some t' => run models data rest t'
      end
  end.

Definition done (t : team) : bool :=
  forallb (fun w => is_nil (todo w)) (workers t).

(** The team at the start of the loop, each worker with its share of the
    iterations. *)
Definition start (shares : list (list nat)) : team :=
  {| shared := accum0;
     workers := map (fun s => {| todo := s; at_ := ReadDensity |}) shares |}.

(** A team of one worker, at the start of an iteration. *)
Definition solo (todo : list nat) (a : accum) : team :=
  {| shared := a; workers := [{| todo := todo; at_ := ReadDensity |}] |}.

(** A complete execution of the loop: a schedule that runs the team from
    its start until no worker has an iteration left. *)
Definition completes (models : list DET) (data : vec) (shares : list (list nat))
    (schedule : list nat) (final : accum) : Prop :=
  exists t, run models data schedule (start shares) = Some t
            /\ done t = true /\ shared t = final.

(** The reduction is safe for a team when every complete execution ends
    with every weight counted, as the loop run in order counts them (the
    integer sum does not depend on the order of the additions). *)
Definition race_safe (models : list DET) (data : vec) (shares : list (list nat)) : Prop :=
  forall schedule final,
    completes models data shares schedule final ->
    count final = count (reduce models data).

End Omp.

(** ** Sample trees, command lines and worlds *)

(** A tree of one leaf: [w] training points, density [v] everywhere. *)
Definition flat_tree (dim : nat) (w : Z) (v : double) : DET :=
  {| MaxVals_n_elem := dim; Start := 0; End_ := w; ComputeValue := fun _ => v |}.

(** Two trees of weight 3 and 1 that answer 0.4 and 0.8. *)
Definition two_trees : list DET :=
  [flat_tree 2 3 (dbl "0.4"); flat_tree 2 1 (dbl "0.8")].

(** Two trees whose partitions hold [2^63] points each. *)
Definition huge_trees : list DET :=
  [flat_tree 1 (2 ^ 63) (dbl "1"); flat_tree 1 (2 ^ 63) (dbl "1")].

(** Two workers with one iteration each, their accesses alternating. *)
Definition racy_schedule : list nat := [0; 1; 0; 1; 0; 1; 0; 1]%nat.

Definition racy_sums : accum :=
  {| density := ld_mul (ld_of_double (dbl "0.8")) (ld_of_size 1); count := 1 |}.

(** A world in which no model resource deserializes. *)
Definition no_models : world :=
  {| model_store := fun _ => None; readable := fun _ => None;
     writable := fun _ => true; cin := Decimal.chars "1 2" |}.

(** A world in which every model resource holds [tree] and no file opens
    for reading. *)
Definition stored (tree : DET) : world :=
  {| model_store := fun _ => Some tree; readable := fun _ => None;
     writable := fun _ => true; cin := [] |}.

Definition from_stdin (modelFiles : list string) : cli :=
  {| model_file := Some modelFiles; test_file := None; estimates_file := None |}.

Definition from_file (modelFiles : list string) (fName : string) : cli :=
  {| model_file := Some modelFiles; test_file := Some fName; estimates_file := None |}.

(** ** The run as a whole, and teams of workers *)

(** The identifiers given with [--model_file]. *)
Definition files_of (a : cli) : list string :=
  match model_file a with Some l => l | None => [] end.

(** The loader's state when [main] reaches line 86. *)
Definition loaded (w : world) (a : cli) : Loader.state :=
  Loader.run w (files_of a) (banner (files_of a)).

(** The entries that loading one identifier adds to the trace. *)
Definition entries (w : world) (file : string) : trace :=
  [(Info, ("Model loading " ++ file ++ "...")%string);
   match Load w file with
   | Some _ => (Info, " done."%string)
   | None => (Warn, (" failed loading " ++ file)%string)
   end].

(** The first of the fatal conditions of [main] that holds, by its text. *)
Definition diagnosis (w : world) (a : cli) : option string :=
  if negb (HasParam (model_file a)) then
    Some "You need an already built model(s), in order to run the estimation!"%string
  else if negb (Nat.ltb 0 (Loader.dataSize (loaded w a))) then Some assert_diagnostic
  else
    match input_text w a with
    | None => Some " failed!"%string
    | Some _ =>
        match estimates_file a with
        | Some fName =>
            if writable w fName then None
            else Some ("Failed to open " ++ fName ++ " for writing!")%string
        | None => None
        end
    end.

Definition zero_or_nan (x : spec_float) : bool :=
  match x with
  | S754_zero _ => true
  | S754_nan => true
  | _ => false
  end.

(** A worker that has iteration [m] to do, and one that has none left. *)
Definition fresh_worker (m : nat) : Omp.worker := {| Omp.todo := [m]; Omp.at_ := Omp.ReadDensity |}.
Definition spent_worker : Omp.worker := {| Omp.todo := []; Omp.at_ := Omp.ReadDensity |}.

(** One worker per iteration. *)
Definition one_each (n : nat) : list (list nat) := map (fun m => [m]) (seq 0 n).

(** The workers of [order] take their turns one after the other, each
    performing its four accesses without another in between. *)
Definition atomic_schedule (order : list nat) : list nat :=
  flat_map (fun i => [i; i; i; i]) order.

(** The sums left by two workers whose accesses alternate: those of the
    second iteration alone. *)
Definition second_only (data : vec) (m1 : DET) : accum :=
  {| density := ld_add zero (term data m1); count := size_add 0 (weight m1) |}.

(** The parser after [i] turns of the loop of line 137. *)
Definition after_turns (num_get : num_get_t) (dataSize : nat) (line : list ascii)
    (i : nat) : parser :=
  for_upto i 0 parse_cond (parse_body num_get)
    {| line_stream := stream_of line; data := repeat zero dataSize |}.

(** * Properties *)

(** ** Loops over a container *)

Section ForRange.

Context {A S : Type}.
Variables (f : A -> S -> S) (d : A).

(** A [for] over the indices of [l] that reads [l[i]] is a left fold. *)
Lemma for_upto_fold (l : list A) :
  forall (pre : list A) (s : S),
    for_upto (length l) (length pre) always
      (fun i s => f (nth i (pre ++ l) d) s) s
    = fold_left (fun s x => f x s) l s.
Proof.
  induction l as [|x l IH]; intros pre s; simpl; [reflexivity|].
  rewrite nth_middle.
  specialize (IH (pre ++ [x]) (f x s)).
  rewrite length_app, Nat.add_comm in IH; simpl in IH.
  rewrite <- IH.
  replace ((pre ++ [x]) ++ l) with (pre ++ x :: l)
    by (rewrite <- app_assoc; reflexivity).
  reflexivity.
Qed.

Lemma for_range_fold (l : list A) (s : S) :
  for_range (length l) always (fun i s => f (nth i l d) s) s
  = fold_left (fun s x => f x s) l s.
Proof. exact (for_upto_fold l [] s). Qed.

End ForRange.

(** ** The weighted reduction *)

Lemma reduce_fold (models : list DET) (data : vec) :
  reduce models data = fold_left (fun a m => model_step data m a) models accum0.
Proof.
  unfold reduce.
  exact (for_range_fold (model_step data) no_tree models accum0).
Qed.

Lemma fold_density (data : vec) (models : list DET) :
  forall a,
    density (fold_left (fun a m => model_step data m a) models a)
    = fold_left ld_add (map (term data) models) (density a).
Proof.
  induction models as [|m models IH]; intros a; simpl; [reflexivity|].
  now rewrite IH.
Qed.

Lemma SIZE_MODULUS_pos : 0 < SIZE_MODULUS.
Proof. reflexivity. Qed.

Lemma weight_range (m : DET) : 0 <= weight m < SIZE_MODULUS.
Proof. apply Z.mod_pos_bound, SIZE_MODULUS_pos. Qed.

Lemma total_weight_nonneg (models : list DET) : 0 <= total_weight models.
Proof.
  induction models as [|m models IH]; [unfold total_weight; simpl; lia|].
  change (0 <= weight m + total_weight models).
  pose proof (weight_range m). lia.
Qed.

Lemma fold_count (data : vec) (models : list DET) :
  forall a,
    0 <= count a < SIZE_MODULUS ->
    count (fold_left (fun a m => model_step data m a) models a)
    = (count a + total_weight models) mod SIZE_MODULUS.
Proof.
  induction models as [|m models IH]; intros a Ha; simpl.
  - now rewrite Z.add_0_r, Z.mod_small.
  - rewrite IH.
    + change (total_weight (m :: models)) with (weight m + total_weight models).
      simpl. unfold size_add.
      rewrite Zplus_mod_idemp_l. f_equal. lia.
    + simpl. apply Z.mod_pos_bound, SIZE_MODULUS_pos.
Qed.

Lemma reduce_density (models : list DET) (data : vec) :
  density (reduce models data) = weighted_sum models data.
Proof. rewrite reduce_fold. apply fold_density. Qed.

Lemma reduce_count (models : list DET) (data : vec) :
  count (reduce models data) = total_weight models mod SIZE_MODULUS.
Proof.
  rewrite reduce_fold, fold_count; [reflexivity|].
  simpl. pose proof SIZE_MODULUS_pos. lia.
Qed.

(** C1 (as amended). With the loop over the models run one iteration after
    the other, [Evaluate] returns the sum of [valueAt_m(point) * weight_m],
    accumulated in [long double], divided by the sum of the weights
    [weight_m = End - Start], the quotient alone being narrowed to
    [double]; the sum of the weights is accumulated in [size_t], hence
    taken modulo [2^64], and is the plain sum whenever that is below
    [2^64]. *)
Theorem Evaluate_weighted_average (models : list DET) (data : vec) :
  Evaluate models data
  = double_of_ld
      (ld_div (weighted_sum models data)
              (ld_of_size (total_weight models mod SIZE_MODULUS)))
  /\ (total_weight models < SIZE_MODULUS ->
      Evaluate models data = weighted_average models data).
Proof.
  assert (E : Evaluate models data
              = double_of_ld
                  (ld_div (weighted_sum models data)
                     (ld_of_size (total_weight models mod SIZE_MODULUS)))).
  { unfold Evaluate. now rewrite reduce_density, reduce_count. }
  split; [exact E|].
  intros Hlt. rewrite E. unfold weighted_average.
  rewrite Z.mod_small; [reflexivity|].
  split; [apply total_weight_nonneg | exact Hlt].
Qed.

(** The trees of weight 3 and 1: the weights add up to 4 and the estimate
    is the stated quotient. *)
Lemma Evaluate_weighted_average_witness :
  total_weight two_trees < SIZE_MODULUS
  /\ Evaluate two_trees [zero; zero] = weighted_average two_trees [zero; zero].
Proof.
  split; [reflexivity|].
  apply (Evaluate_weighted_average two_trees [zero; zero]).
  reflexivity.
Defined.

(** C1 (as stated) fails when the weights add up to [2^64]: the [size_t]
    count wraps to 0 and the quotient is infinite, where the stated
    formula gives 1. *)
Lemma Evaluate_count_wraps :
  Evaluate huge_trees [zero] = S754_infinity false
  /\ weighted_average huge_trees [zero] = dbl "1"
  /\ Evaluate huge_trees [zero] <> weighted_average huge_trees [zero].
Proof.
  split; [vm_compute; reflexivity|].
  split; [vm_compute; reflexivity|].
  vm_compute. discriminate.
Qed.

(** The estimate of the trees of weight 3 and 1 answering 0.4 and 0.8. *)
Example Evaluate_two_trees : Evaluate two_trees [zero; zero] = dbl "0.5".
Proof. vm_compute. reflexivity. Qed.

(** ** The loop over the models under OpenMP *)

(** A team of one worker runs the loop in index order. *)
Lemma Omp_solo_run (models : list DET) (data : vec) :
  forall (k i : nat) (a : accum),
    Omp.run models data (repeat 0%nat (4 * k)) (Omp.solo (seq i k) a)
    = Some (Omp.solo [] (for_upto k i always (model_body models data) a)).
Proof.
  induction k as [|k IH]; intros i a; [reflexivity|].
  replace (4 * S k)%nat with (4 + 4 * k)%nat by lia.
  change (repeat 0%nat (4 + 4 * k))
    with (0 :: 0 :: 0 :: 0 :: repeat 0 (4 * k))%nat.
  change (seq i (S k)) with (i :: seq (S i) k).
  cbn [Omp.run].
  change (Omp.step models data 0 (Omp.solo (i :: seq (S i) k) a))
    with (Some {| Omp.shared := a;
                  Omp.workers := [{| Omp.todo := i :: seq (S i) k;
                                     Omp.at_ := Omp.WriteDensity (density a) |}] |}).
  cbv iota beta.
  cbn [Omp.step Omp.workers Omp.shared nth_error Omp.access Omp.todo Omp.at_ Omp.replace].
  exact (IH (S i) (model_body models data i a)).
Qed.

Lemma Omp_solo_completes (models : list DET) (data : vec) :
  Omp.completes models data [seq 0 (length models)]
    (repeat 0%nat (4 * length models)) (reduce models data).
Proof.
  exists (Omp.solo [] (reduce models data)).
  split; [apply Omp_solo_run|].
  split; reflexivity.
Qed.

(** C4. With the trees of weight 3 and 1 shared between two workers, the
    schedule in which both read [density], both write it, both read
    [count] and both write it is a complete execution of the loop, and it
    ends with [count == 1] where the weights add up to 4: the increments
    of the first worker are lost, so the loop is not race-safe. *)
Theorem omp_increments_are_lost :
  Omp.completes two_trees [zero; zero] [[0]; [1]]%nat racy_schedule racy_sums
  /\ count (reduce two_trees [zero; zero]) = 4
  /\ ~ Omp.race_safe two_trees [zero; zero] [[0]; [1]]%nat.
Proof.
  assert (C : Omp.completes two_trees [zero; zero] [[0]; [1]]%nat
                racy_schedule racy_sums).
  { eexists. split; [vm_compute; reflexivity|]. split; reflexivity. }
  split; [exact C|].
  split; [vm_compute; reflexivity|].
  intros safe. specialize (safe _ _ C). vm_compute in safe. discriminate.
Qed.

(** ** Loading *)

Lemma Loader_run_fold (w : world) (modelFiles : list string) (t : trace) :
  Loader.run w modelFiles t
  = fold_left (fun s f => load_step w f s) modelFiles
      {| Loader.log := t; Loader.models := []; Loader.dataSize := 0 |}.
Proof.
  unfold Loader.run.
  exact (for_range_fold (load_step w) ""%string modelFiles _).
Qed.

Lemma fold_models (w : world) (modelFiles : list string) :
  forall s,
    Loader.models (fold_left (fun s f => load_step w f s) modelFiles s)
    = Loader.models s ++ successes w modelFiles.
Proof.
  induction modelFiles as [|f fs IH]; intros s; simpl.
  - now rewrite app_nil_r.
  - rewrite IH. unfold load_step, Loader.body; simpl.
    destruct (Load w f); simpl; [now rewrite <- app_assoc | reflexivity].
Qed.

Lemma fold_dataSize (w : world) (modelFiles : list string) :
  forall s,
    Loader.dataSize (fold_left (fun s f => load_step w f s) modelFiles s)
    = Nat.max (Loader.dataSize s)
        (list_max (map MaxVals_n_elem (successes w modelFiles))).
Proof.
  induction modelFiles as [|f fs IH]; intros s; simpl.
  - now rewrite Nat.max_0_r.
  - rewrite IH. unfold load_step, Loader.body; simpl.
    destruct (Load w f); simpl; [now rewrite Nat.max_assoc | reflexivity].
Qed.

Lemma warnings_app (t u : trace) : warnings (t ++ u) = warnings t ++ warnings u.
Proof. unfold warnings, texts. now rewrite filter_app, map_app. Qed.

Lemma fold_warnings (w : world) (modelFiles : list string) :
  forall s,
    warnings (Loader.log (fold_left (fun s f => load_step w f s) modelFiles s))
    = warnings (Loader.log s)
      ++ map (fun f => " failed loading " ++ f)%string (failures w modelFiles).
Proof.
  induction modelFiles as [|f fs IH]; intros s; simpl.
  - now rewrite app_nil_r.
  - rewrite IH. unfold load_step, Loader.body; simpl.
    destruct (Load w f); simpl; rewrite !warnings_app; simpl.
    + now rewrite !app_nil_r.
    + rewrite <- !app_assoc. reflexivity.
Qed.

Lemma successes_failures (w : world) (modelFiles : list string) :
  (length (successes w modelFiles) + length (failures w modelFiles)
   = length modelFiles)%nat.
Proof.
  induction modelFiles as [|f fs IH]; simpl; [reflexivity|].
  unfold successes, failures in *.
  destruct (Load w f); simpl; rewrite ?length_app; simpl; lia.
Qed.

Lemma Loader_models (w : world) (modelFiles : list string) (t : trace) :
  Loader.models (Loader.run w modelFiles t) = successes w modelFiles.
Proof. now rewrite Loader_run_fold, fold_models. Qed.

Lemma Loader_dataSize (w : world) (modelFiles : list string) (t : trace) :
  Loader.dataSize (Loader.run w modelFiles t)
  = list_max (map MaxVals_n_elem (successes w modelFiles)).
Proof. now rewrite Loader_run_fold, fold_dataSize. Qed.

(** C2. Of [N] identifiers of which [K] do not deserialize, the loader
    keeps the trees of the other [N - K], in order, writes one warning for
    each of the [K] and none else, and the run goes on after it. *)
Theorem loading_skips_failures (w : world) (modelFiles : list string) (t : trace) :
  let s := Loader.run w modelFiles t in
  Loader.models s = successes w modelFiles
  /\ length (Loader.models s)
     = (length modelFiles - length (failures w modelFiles))%nat
  /\ warnings (Loader.log s)
     = warnings t ++ map (fun f => " failed loading " ++ f)%string (failures w modelFiles)
  /\ load_models w modelFiles t
     = (Loader.log s, Next (Loader.models s, Loader.dataSize s)).
Proof.
  cbv zeta.
  split; [apply Loader_models|].
  split.
  { rewrite Loader_models. pose proof (successes_failures w modelFiles). lia. }
  split; [|reflexivity].
  now rewrite Loader_run_fold, fold_warnings.
Qed.

(** C7. After loading, [dataSize] is the largest [MaxVals().n_elem] among
    the trees that were loaded, which are those of the identifiers that
    deserialized; it is 0 when there is none. *)
Theorem dataSize_is_max_of_loaded (w : world) (modelFiles : list string) (t : trace) :
  let s := Loader.run w modelFiles t in
  Loader.dataSize s = list_max (map MaxVals_n_elem (Loader.models s))
  /\ Loader.models s = successes w modelFiles.
Proof.
  cbv zeta. now rewrite Loader_models, Loader_dataSize.
Qed.

(** With every loaded tree of positive dimension, [dataSize] is 0
    exactly when no tree was loaded. *)
Lemma dataSize_zero_iff (w : world) (modelFiles : list string) (t : trace) :
  let s := Loader.run w modelFiles t in
  Forall (fun tree => (0 < MaxVals_n_elem tree)%nat) (Loader.models s) ->
  (Loader.dataSize s = 0%nat <-> Loader.models s = []).
Proof.
  cbv zeta. rewrite Loader_dataSize, Loader_models.
  intros H. split.
  - destruct (successes w modelFiles) as [|tree l]; [reflexivity|].
    intros Z. exfalso. inversion H as [|x l' Hx Hl]; subst.
    simpl in Z. lia.
  - intros ->. reflexivity.
Qed.

(** ** The assertion after loading *)

Lemma main_after_loading (num_get : num_get_t) (a : cli) (w : world)
    (modelFiles : list string) :
  model_file a = Some modelFiles ->
  let s := Loader.run w modelFiles (banner modelFiles) in
  main num_get a w []
  = if Nat.ltb 0 (Loader.dataSize s) then
      (input <- bind_input w a ;;
       bind_output w a ;;;
       run_records num_get (Loader.models s) (Loader.dataSize s) input)
        (Loader.log s)
    else (Loader.log s ++ [(Fatal, assert_diagnostic)], Halted).
Proof.
  intros H. cbv zeta. unfold main. rewrite H. simpl.
  unfold bind at 1. simpl.
  unfold bind at 1. simpl.
  unfold bind at 1. unfold load_models at 1. fold (banner modelFiles).
  unfold bind at 1.
  destruct (Nat.ltb 0 (Loader.dataSize (Loader.run w modelFiles (banner modelFiles))));
    reflexivity.
Qed.

(** C3. When loading ends with no tree, or with [dataSize == 0], the run
    is ended by the assertion: its diagnostic is the last entry of the
    trace, the streams are never bound and no record is read. *)
Theorem empty_ensemble_is_fatal (num_get : num_get_t) (a : cli) (w : world)
    (modelFiles : list string) :
  model_file a = Some modelFiles ->
  let s := Loader.run w modelFiles (banner modelFiles) in
  Loader.models s = [] \/ Loader.dataSize s = 0%nat ->
  main num_get a w [] = (Loader.log s ++ [(Fatal, assert_diagnostic)], Halted).
Proof.
  intros H s Hs.
  assert (Hd : Loader.dataSize s = 0%nat).
  { destruct Hs as [Hm | Hd]; [|exact Hd].
    subst s. rewrite Loader_dataSize, <- (Loader_models w modelFiles (banner modelFiles)), Hm.
    reflexivity. }
  rewrite (main_after_loading num_get a w modelFiles H).
  fold s. now rewrite Hd.
Qed.

(** Two identifiers, neither of which deserializes. *)
Lemma empty_ensemble_is_fatal_witness :
  main Decimal.num_get (from_stdin ["a.xml"; "b.xml"]%string) no_models []
  = ([(Info, "2 models provided.");
      (Info, "Model loading a.xml..."); (Warn, " failed loading a.xml");
      (Info, "Model loading b.xml..."); (Warn, " failed loading b.xml");
      (Fatal, "Assert Failed.")]%string, Halted).
Proof.
  apply (empty_ensemble_is_fatal Decimal.num_get
           (from_stdin ["a.xml"; "b.xml"]%string) no_models
           ["a.xml"; "b.xml"]%string).
  - reflexivity.
  - left. reflexivity.
Defined.

(** ** An input file that does not open *)

(** C8. With [--test_file points.csv] and no such file, the run is ended
    by [Log::Fatal]; the text sent to it is [" failed!"], which does not
    name the file. The name is in the [Log::Info] entry before it. *)
Theorem unreadable_input_diagnostic :
  let r := main Decimal.num_get (from_file ["a.xml"%string] "points.csv")
             (stored (flat_tree 2 3 (dbl "0.4"))) [] in
  r = ([(Info, "1 models provided.");
        (Info, "Model loading a.xml..."); (Info, " done.");
        (Info, "Processing points.csv...");
        (Fatal, " failed!")]%string, Halted)
  /\ fatals (fst r) = [" failed!"%string]
  /\ mentions "points.csv" " failed!" = false.
Proof. cbv zeta. repeat split. Qed.

(** The sibling path, an output file that does not open, names it. *)
Lemma unwritable_output_diagnostic :
  let w := {| model_store := fun _ => Some (flat_tree 2 3 (dbl "0.4"));
              readable := fun _ => None; writable := fun _ => false; cin := [] |} in
  let a := {| model_file := Some ["a.xml"%string]; test_file := None;
              estimates_file := Some "out.csv"%string |} in
  fatals (fst (main Decimal.num_get a w [])) = ["Failed to open out.csv for writing!"%string]
  /\ mentions "out.csv" "Failed to open out.csv for writing!" = true.
Proof. cbv zeta. split; reflexivity. Qed.

(** Whatever the name, an input file that does not open ends the run
    with the one text [" failed!"] on [Log::Fatal]. *)
Lemma unreadable_input_is_fatal (w : world) (a : cli) (fName : string) (t : trace) :
  test_file a = Some fName ->
  readable w fName = None ->
  bind_input w a t
  = (t ++ [(Info, ("Processing " ++ fName ++ "...")%string)] ++ [(Fatal, " failed!"%string)],
     Halted).
Proof.
  intros Ht Hr. unfold bind_input. rewrite Ht, Hr.
  unfold bind, say, fatal. simpl. now rewrite <- app_assoc.
Qed.

(** ** The record loop *)

Lemma read_line_spec (s : list ascii) :
  forall l r e,
    read_line s = (l, r, e) ->
    lines s = l :: (if e then [] else lines r)
    /\ (length l + length r <= length s)%nat
    /\ (e = false -> S (length l + length r) = length s).
Proof.
  induction s as [|c s IH]; intros l r e H; simpl in H.
  - injection H as <- <- <-. simpl. repeat split; [lia | discriminate].
  - simpl. destruct (Ascii.eqb c newline).
    + injection H as <- <- <-. simpl. repeat split; lia.
    + destruct (read_line s) as [[l' r'] e'] eqn:R.
      injection H as <- <- <-.
      destruct (IH l' r' e' eq_refl) as (L & B & E).
      rewrite L. simpl. repeat split; [lia|].
      intros He. specialize (E He). lia.
Qed.

Lemma is_nil_length {A : Type} (l : list A) : Nat.eqb (length l) 0 = is_nil l.
Proof. destruct l; reflexivity. Qed.

Section RecordLoop.

Variables (num_get : num_get_t) (models : list DET) (dataSize : nat).

(** Under a bound larger than the text the loop leaves, with the
    estimates of the records of the text written after what was there. *)
Lemma record_loop_spec :
  forall (bound : nat) (text str : list ascii) (out : list double),
    (length text < bound)%nat ->
    exists p,
      record_loop num_get bound models dataSize
        {| input := stream_of text; line_string := str; output := out |} = Some p
      /\ output p = out ++ map (estimate num_get models dataSize) (records_of text).
Proof.
  induction bound as [|k IH]; intros text str out Hb; [lia|].
  cbn [record_loop input line_string output].
  change (good (stream_of text)) with true. cbv iota.
  unfold getline. change (good (stream_of text)) with true. cbv iota.
  change (buf (stream_of text)) with text.
  destruct (read_line text) as [[l r] e] eqn:R.
  destruct (read_line_spec text l r e R) as (L & B & E).
  unfold records_of. rewrite L.
  rewrite is_nil_length.
  destruct l as [|c l].
  - eexists. split; [reflexivity|]. simpl. now rewrite app_nil_r.
  - cbn [is_nil before_blank]. cbv iota.
    destruct e.
    + destruct k as [|k]; [simpl in B; lia|].
      eexists. split; [reflexivity|]. reflexivity.
    + destruct (IH r (c :: l)
                  (out ++ [Evaluate models (parse_record num_get dataSize (c :: l))]))
        as (p & Hp & Ho).
      { specialize (E eq_refl). simpl in E. lia. }
      exists p. split; [exact Hp|].
      rewrite Ho, <- app_assoc. reflexivity.
Qed.

Lemma process_spec (text : list ascii) :
  process num_get models dataSize (stream_of text)
  = Some (map (estimate num_get models dataSize) (records_of text)).
Proof.
  unfold process.
  destruct (record_loop_spec (S (length text)) text [] []) as (p & Hp & Ho);
    [lia|].
  change (buf (stream_of text)) with text.
  rewrite Hp. simpl. now rewrite Ho.
Qed.

End RecordLoop.

Lemma lines_record (r : list ascii) :
  is_record r = true ->
  forall rest, lines (r ++ newline :: rest) = r :: lines rest.
Proof.
  unfold is_record. intros H rest.
  apply andb_prop in H. destruct H as [_ H].
  induction r as [|c r IH]; simpl in *.
  - reflexivity.
  - apply andb_prop in H. destruct H as [Hc H].
    destruct (Ascii.eqb c newline); [discriminate|].
    now rewrite (IH H).
Qed.

Lemma lines_last (r : list ascii) :
  is_record r = true -> lines r = [r].
Proof.
  unfold is_record. intros H.
  apply andb_prop in H. destruct H as [_ H].
  induction r as [|c r IH]; simpl in *.
  - reflexivity.
  - apply andb_prop in H. destruct H as [Hc H].
    destruct (Ascii.eqb c newline); [discriminate|].
    now rewrite (IH H).
Qed.

Lemma records_of_written (recs : list (list ascii)) :
  forallb is_record recs = true ->
  forall tail, records_of (written recs ++ tail) = recs ++ records_of tail.
Proof.
  induction recs as [|r recs IH]; intros H tail; [reflexivity|].
  simpl in H. apply andb_prop in H. destruct H as [Hr H].
  unfold records_of, written in *. simpl.
  rewrite <- !app_assoc. simpl.
  rewrite (lines_record r Hr). simpl.
  destruct r as [|c r]; [discriminate|]. simpl.
  now rewrite (IH H).
Qed.

(** C5. The record loop ends without error, having produced the estimates
    of the lines that come before the first empty line, or of all lines
    when there is none: records followed by an empty line give their
    estimates whatever comes after it, and records followed by the end of
    the input, with or without a last newline, give theirs. *)
Theorem record_loop_stops_at_blank_or_end (num_get : num_get_t)
    (models : list DET) (dataSize : nat) :
  let run text := process num_get models dataSize (stream_of text) in
  let est := estimate num_get models dataSize in
  (forall text, run text = Some (map est (records_of text)))
  /\ (forall recs rest,
        forallb is_record recs = true ->
        run (written recs ++ newline :: rest) = Some (map est recs))
  /\ (forall recs,
        forallb is_record recs = true ->
        run (written recs) = Some (map est recs))
  /\ (forall recs last,
        forallb is_record recs = true -> is_record last = true ->
        run (written recs ++ last) = Some (map est (recs ++ [last]))).
Proof.
  cbv zeta. split; [apply process_spec|].
  split; [|split].
  - intros recs rest H.
    rewrite process_spec, (records_of_written recs H).
    unfold records_of. simpl. now rewrite app_nil_r.
  - intros recs H.
    rewrite process_spec.
    rewrite <- (app_nil_r (written recs)), (records_of_written recs H).
    unfold records_of. simpl. now rewrite app_nil_r.
  - intros recs last H Hl.
    rewrite process_spec, (records_of_written recs H).
    unfold records_of. rewrite (lines_last last Hl).
    destruct last as [|c last]; [discriminate|]. reflexivity.
Qed.

(** Two records, an empty line, and a third record that is never read;
    then two records and a third that the end of the input closes. *)
Lemma record_loop_stops_at_blank_or_end_witness :
  let recs := [Decimal.chars "1.5 2"; Decimal.chars "7"] in
  let run text := process Decimal.num_get two_trees 2 (stream_of text) in
  let est := estimate Decimal.num_get two_trees 2 in
  run (written recs ++ newline :: Decimal.chars "2 2") = Some (map est recs)
  /\ run (written recs) = Some (map est recs)
  /\ run (written recs ++ Decimal.chars "2 2")
     = Some (map est (recs ++ [Decimal.chars "2 2"])).
Proof.
  cbv zeta.
  destruct (record_loop_stops_at_blank_or_end Decimal.num_get two_trees 2)
    as (_ & A & B & C).
  split; [apply A; reflexivity|].
  split; [apply B; reflexivity|].
  apply C; reflexivity.
Defined.

(** ** A run that reaches the record loop *)

Lemma run_records_spec (num_get : num_get_t) (models : list DET) (dataSize : nat)
    (text : list ascii) (t : trace) :
  run_records num_get models dataSize (stream_of text) t
  = (t, Next (map (estimate num_get models dataSize) (records_of text))).
Proof. unfold run_records. now rewrite process_spec. Qed.

(** A run whose trees give a positive [dataSize] and whose streams open
    ends normally, having written the estimates of the records of its
    input. *)
Lemma main_estimates (num_get : num_get_t) (a : cli) (w : world)
    (modelFiles : list string) (text : list ascii) :
  model_file a = Some modelFiles ->
  let s := Loader.run w modelFiles (banner modelFiles) in
  Nat.ltb 0 (Loader.dataSize s) = true ->
  input_text w a = Some text ->
  output_opens w a = true ->
  snd (main num_get a w [])
  = Next (map (estimate num_get (Loader.models s) (Loader.dataSize s))
            (records_of text)).
Proof.
  intros M s D I O.
  rewrite (main_after_loading num_get a w modelFiles M). fold s. rewrite D.
  unfold input_text in I. unfold output_opens in O.
  unfold bind_input, bind_output.
  destruct (test_file a) as [fName|].
  - rewrite I.
    destruct (estimates_file a) as [oName|].
    + rewrite O. unfold bind, say, ret, when_. simpl.
      now rewrite run_records_spec.
    + unfold bind, say, ret. simpl. now rewrite run_records_spec.
  - injection I as <-.
    destruct (estimates_file a) as [oName|].
    + rewrite O. unfold bind, say, ret, when_. simpl.
      now rewrite run_records_spec.
    + unfold bind, say, ret. simpl. now rewrite run_records_spec.
Qed.

(** ** One record *)

Lemma pad_nil (k : nat) : pad k [] = repeat zero k.
Proof. induction k as [|k IH]; simpl; [reflexivity | now rewrite IH]. Qed.

Lemma firstn_zeros_more (k j : nat) (l : vec) :
  firstn k (l ++ repeat zero (k + j)) = firstn k (l ++ repeat zero k).
Proof.
  revert k j; induction l as [|x l IH]; intros k j; simpl.
  - rewrite repeat_app, firstn_app, repeat_length, Nat.sub_diag. simpl.
    rewrite app_nil_r.
    rewrite <- (repeat_length zero k) at 1 3. now rewrite !firstn_all.
  - destruct k as [|k]; simpl; [reflexivity|]. f_equal.
    replace (zero :: repeat zero (k + j)) with (repeat zero (k + S j))
      by (rewrite Nat.add_succ_r; reflexivity).
    replace (zero :: repeat zero k) with (repeat zero (k + 1))
      by (rewrite Nat.add_1_r; reflexivity).
    now rewrite !IH.
Qed.

Lemma pad_firstn (k : nat) : forall l, pad k l = firstn k (l ++ repeat zero k).
Proof.
  induction k as [|k IH]; intros l; [reflexivity|].
  destruct l as [|x l]; simpl.
  - rewrite IH. simpl. f_equal.
  - rewrite IH. f_equal.
    replace (zero :: repeat zero k) with (repeat zero (k + 1))
      by (rewrite Nat.add_1_r; reflexivity).
    now rewrite firstn_zeros_more.
Qed.

Lemma firstn_zeros (j : nat) :
  forall k, (j <= k)%nat -> firstn j (repeat zero k) = repeat zero j.
Proof.
  induction j as [|j IH]; intros k H; [reflexivity|].
  destruct k as [|k]; [lia|]. simpl. rewrite IH by lia. reflexivity.
Qed.

Lemma set_at_nth (d : vec) : forall i, set_at i (nth i d zero) d = d.
Proof.
  induction d as [|x d IH]; intros [|i]; simpl; try reflexivity.
  now rewrite IH.
Qed.

Lemma set_at_middle (pre : vec) (x v : double) (post : vec) :
  set_at (length pre) v (pre ++ x :: post) = pre ++ v :: post.
Proof. induction pre as [|y pre IH]; simpl; [reflexivity | now rewrite IH]. Qed.

Lemma skipws_blank (s : list ascii) : blank s = true -> skipws s = [].
Proof.
  induction s as [|c s IH]; simpl; [reflexivity|].
  intros H. apply andb_prop in H. destruct H as [Hc H]. rewrite Hc. auto.
Qed.

Lemma skipws_token (ws tok : list ascii) :
  blank ws = true -> begins_token tok = true ->
  forall line, skipws (ws ++ tok ++ line) = tok ++ line.
Proof.
  intros Hw Ht line. induction ws as [|c ws IH]; simpl in *.
  - destruct tok as [|t tok]; [discriminate|]. simpl in *.
    apply negb_true_iff in Ht. now rewrite Ht.
  - apply andb_prop in Hw. destruct Hw as [Hc Hw]. rewrite Hc. auto.
Qed.

Lemma good_flags (s : istream) :
  good s = true -> eofbit s = false /\ failbit s = false.
Proof.
  unfold good. intros H. apply andb_prop in H.
  destruct H as [H1 H2]. now apply negb_true_iff in H1, H2.
Qed.

Section Record.

Variable num_get : num_get_t.

Lemma coords_step (n i : nat) (s : istream) (d : vec) :
  eofbit s = false ->
  coords num_get (S n) i s d
  = coords num_get n (S i) (fst (extract num_get s (nth i d zero)))
      (set_at i (snd (extract num_get s (nth i d zero))) d).
Proof.
  intros H. unfold coords. cbn [for_upto].
  unfold parse_cond at 1, eof. cbn [line_stream]. rewrite H. cbn [negb].
  unfold parse_body at 2. cbn [line_stream data].
  destruct (extract num_get s (nth i d zero)); reflexivity.
Qed.

Lemma coords_eof (n i : nat) (s : istream) (d : vec) :
  eofbit s = true -> coords num_get n i s d = d.
Proof.
  intros H. unfold coords. destruct n; [reflexivity|].
  cbn [for_upto]. unfold parse_cond, eof. cbn [line_stream].
  now rewrite H.
Qed.

(** Once [failbit] is set no coordinate is written any more. *)
Lemma coords_failed (n : nat) :
  forall i s d, failbit s = true -> coords num_get n i s d = d.
Proof.
  induction n as [|n IH]; intros i s d H; [reflexivity|].
  destruct (eofbit s) eqn:E; [now apply coords_eof|].
  rewrite coords_step by exact E.
  unfold extract, good. rewrite H, andb_false_r. cbn [fst snd].
  rewrite set_at_nth. now apply IH.
Qed.

Lemma extract_token (s : istream) (x : double)
    (ws tok : list ascii) (v : double) (line : list ascii) :
  good s = true -> buf s = ws ++ tok ++ line ->
  blank ws = true -> reads num_get tok v -> ends_token line = true ->
  extract num_get s x = (after_token line, v).
Proof.
  intros G B Hw [Hb Hr] He. unfold extract. rewrite G, B.
  rewrite (skipws_token ws tok Hw Hb).
  destruct (tok ++ line) as [|c r] eqn:T.
  - destruct tok; discriminate.
  - rewrite <- T, (Hr line He). reflexivity.
Qed.

Lemma extract_blank (s : istream) (x : double) :
  good s = true -> blank (buf s) = true ->
  failbit (fst (extract num_get s x)) = true /\ snd (extract num_get s x) = x.
Proof.
  intros G B. unfold extract. rewrite G, (skipws_blank _ B). split; reflexivity.
Qed.

Lemma extract_failure (s : istream) (x : double) (c : ascii) (r : list ascii) :
  good s = true -> skipws (buf s) = c :: r ->
  fails (conv (num_get (c :: r))) = true ->
  failbit (fst (extract num_get s x)) = true
  /\ snd (extract num_get s x) = stores (conv (num_get (c :: r))).
Proof.
  intros G B F. unfold extract. rewrite G, B. cbn [fst snd failbit].
  split; [exact F | reflexivity].
Qed.

Lemma coords_ending (rest : list ascii) (tl : list double) :
  ending num_get rest tl ->
  forall (k : nat) (pre : vec) (s : istream),
    good s = true -> buf s = rest ->
    coords num_get k (length pre) s (pre ++ repeat zero k) = pre ++ pad k tl.
Proof.
  intros E k pre s G B.
  destruct (good_flags s G) as [Ge Gf].
  destruct k as [|k]; [reflexivity|].
  rewrite coords_step by exact Ge.
  destruct E as [rest Hb | rest c r Hs Hf].
  - rewrite <- B in Hb.
    destruct (extract_blank s (nth (length pre) (pre ++ repeat zero (S k)) zero) G Hb)
      as [F V].
    rewrite V, set_at_nth. rewrite coords_failed by exact F.
    cbn [pad]. now rewrite pad_nil.
  - rewrite <- B in Hs.
    destruct (extract_failure s (nth (length pre) (pre ++ repeat zero (S k)) zero)
                c r G Hs Hf) as [F V].
    rewrite V. rewrite coords_failed by exact F.
    cbn [repeat pad]. now rewrite set_at_middle, pad_nil.
Qed.

Lemma fields_nil_inv (vs : list double) (rest : list ascii) :
  fields num_get [] vs rest -> vs = [] /\ rest = [].
Proof.
  intros H. inversion H as [r | ws tok v line vs' r Hw [Hb _] He Hf E]; subst.
  - split; reflexivity.
  - destruct ws; [|discriminate]. destruct tok; discriminate.
Qed.

(** The tokens of the line go to the coordinates in order, as far as
    there are coordinates; what follows them decides the next one. *)
Lemma coords_fields (line : list ascii) (vs : list double) (rest : list ascii) :
  fields num_get line vs rest ->
  forall tl, ending num_get rest tl ->
  forall (k : nat) (pre : vec) (s : istream),
    good s = true -> buf s = line ->
    coords num_get k (length pre) s (pre ++ repeat zero k) = pre ++ pad k (vs ++ tl).
Proof.
  induction 1 as [rest | ws tok v line vs rest Hw Hr He Hf IH];
    intros tl E k pre s G B.
  - now apply coords_ending with (rest := rest).
  - destruct (good_flags s G) as [Ge Gf].
    destruct k as [|k]; [reflexivity|].
    rewrite coords_step by exact Ge.
    rewrite (extract_token s _ ws tok v line G B Hw Hr He).
    cbn [fst snd repeat]. rewrite set_at_middle.
    cbn [app pad].
    replace (pre ++ v :: repeat zero k) with ((pre ++ [v]) ++ repeat zero k)
      by (rewrite <- app_assoc; reflexivity).
    replace (S (length pre)) with (length (pre ++ [v]))
      by (rewrite length_app, Nat.add_comm; reflexivity).
    destruct line as [|c line].
    + rewrite coords_eof by reflexivity.
      destruct (fields_nil_inv vs rest Hf) as [-> ->].
      inversion E as [r Hb | r c' r' Hs Hfail]; subst; [|discriminate].
      cbn [app]. rewrite pad_nil, <- app_assoc. reflexivity.
    + rewrite (IH tl E k (pre ++ [v]) (after_token (c :: line)))
        by reflexivity.
      rewrite <- app_assoc. reflexivity.
Qed.

(** As long as there are tokens left, what follows them is not read. *)
Lemma coords_fields_full (line : list ascii) (vs : list double) (rest : list ascii) :
  fields num_get line vs rest ->
  forall (k : nat) (pre : vec) (s : istream),
    (k <= length vs)%nat ->
    good s = true -> buf s = line ->
    coords num_get k (length pre) s (pre ++ repeat zero k) = pre ++ firstn k vs.
Proof.
  induction 1 as [rest | ws tok v line vs rest Hw Hr He Hf IH];
    intros k pre s K G B.
  - simpl in K. replace k with 0%nat by lia. reflexivity.
  - destruct (good_flags s G) as [Ge Gf].
    destruct k as [|k]; [reflexivity|].
    rewrite coords_step by exact Ge.
    rewrite (extract_token s _ ws tok v line G B Hw Hr He).
    cbn [fst snd repeat]. rewrite set_at_middle.
    cbn [firstn].
    replace (pre ++ v :: repeat zero k) with ((pre ++ [v]) ++ repeat zero k)
      by (rewrite <- app_assoc; reflexivity).
    replace (S (length pre)) with (length (pre ++ [v]))
      by (rewrite length_app, Nat.add_comm; reflexivity).
    simpl in K.
    destruct line as [|c line].
    + destruct (fields_nil_inv vs rest Hf) as [-> ->].
      simpl in K. replace k with 0%nat by lia.
      simpl. now rewrite <- app_assoc.
    + rewrite (IH k (pre ++ [v]) (after_token (c :: line))) by (try reflexivity; lia).
      rewrite <- app_assoc. reflexivity.
Qed.

Lemma parse_record_full (dataSize : nat) (line : list ascii)
    (vs : list double) (rest : list ascii) :
  fields num_get line vs rest ->
  (dataSize <= length vs)%nat ->
  parse_record num_get dataSize line = firstn dataSize vs.
Proof.
  intros F K.
  exact (coords_fields_full line vs rest F dataSize [] (stream_of line) K
           eq_refl eq_refl).
Qed.

Lemma parse_record_fields (dataSize : nat) (line : list ascii)
    (vs : list double) (rest : list ascii) (tl : list double) :
  fields num_get line vs rest -> ending num_get rest tl ->
  parse_record num_get dataSize line
  = firstn dataSize ((vs ++ tl) ++ repeat zero dataSize).
Proof.
  intros F E. rewrite <- pad_firstn.
  exact (coords_fields line vs rest F tl E dataSize [] (stream_of line)
           eq_refl eq_refl).
Qed.

End Record.

(** C6. A line of numeric tokens, set off by spaces, is parsed left to
    right into the first [dataSize] coordinates. When nothing but spaces
    follows the tokens and they are fewer than [dataSize], the trailing
    coordinates are left at 0.0; when there are [dataSize] tokens or
    more, the coordinates are the first [dataSize] of them and nothing
    after those is read, whatever it is. *)
Theorem tokens_fill_leading_coordinates (num_get : num_get_t) (dataSize : nat)
    (line : list ascii) (vs : list double) (rest : list ascii) :
  fields num_get line vs rest ->
  (blank rest = true ->
   parse_record num_get dataSize line = firstn dataSize (vs ++ repeat zero dataSize)
   /\ ((length vs <= dataSize)%nat ->
       parse_record num_get dataSize line = vs ++ repeat zero (dataSize - length vs)))
  /\ ((dataSize <= length vs)%nat ->
      parse_record num_get dataSize line = firstn dataSize vs).
Proof.
  intros F. split; [|apply (parse_record_full num_get dataSize line vs rest F)].
  intros B.
  assert (E : parse_record num_get dataSize line
              = firstn dataSize (vs ++ repeat zero dataSize)).
  { rewrite (parse_record_fields num_get dataSize line vs rest [] F
               (ending_blank num_get rest B)).
    now rewrite app_nil_r. }
  split; [exact E|]. intros H. rewrite E, firstn_app.
  rewrite firstn_all2 by exact H. f_equal. apply firstn_zeros. lia.
Qed.

(** ** The decimal numeric stage on tokens *)

Lemma isspace_cases (c : ascii) :
  isspace c = true ->
  c = " "%char \/ c = "009"%char \/ c = "010"%char \/ c = "011"%char
  \/ c = "012"%char \/ c = "013"%char.
Proof.
  destruct c as [[] [] [] [] [] [] [] []]; intros H;
    try discriminate H; tauto.
Qed.

Ltac space_cases c E :=
  destruct (isspace_cases c E) as [-> | [-> | [-> | [-> | [-> | ->]]]]].

Lemma space_digit (c : ascii) : isspace c = true -> Decimal.digit c = None.
Proof. intros H. space_cases c H; reflexivity. Qed.

Lemma digits_app (rest : list ascii) :
  ends_token rest = true ->
  forall s acc,
    Decimal.digits acc (s ++ rest)
    = let '(v, n, s') := Decimal.digits acc s in (v, n, s' ++ rest).
Proof.
  intros E. induction s as [|c s IH]; intros acc.
  - destruct rest as [|c r]; [reflexivity|].
    cbn [app Decimal.digits]. cbn [ends_token] in E. now rewrite (space_digit c E).
  - cbn [app Decimal.digits]. destruct (Decimal.digit c) as [d|]; [|reflexivity].
    rewrite IH. destruct (Decimal.digits (10 * acc + d) s) as [[v n] s'].
    reflexivity.
Qed.

Lemma sign_app (rest : list ascii) :
  ends_token rest = true ->
  forall s,
    Decimal.sign (s ++ rest)
    = let '(neg, s') := Decimal.sign s in (neg, s' ++ rest).
Proof.
  intros E [|c s].
  - destruct rest as [|c r]; [reflexivity|]. simpl in E.
    space_cases c E; reflexivity.
  - destruct c as [[] [] [] [] [] [] [] []]; reflexivity.
Qed.

Lemma point_app (rest : list ascii) :
  ends_token rest = true ->
  forall s,
    Decimal.point (s ++ rest) = option_map (fun s' => s' ++ rest) (Decimal.point s).
Proof.
  intros E [|c s].
  - destruct rest as [|c r]; [reflexivity|]. simpl in E.
    space_cases c E; reflexivity.
  - destruct c as [[] [] [] [] [] [] [] []]; reflexivity.
Qed.

Lemma exponent_mark_app (rest : list ascii) :
  ends_token rest = true ->
  forall s,
    Decimal.exponent_mark (s ++ rest)
    = option_map (fun s' => s' ++ rest) (Decimal.exponent_mark s).
Proof.
  intros E [|c s].
  - destruct rest as [|c r]; [reflexivity|]. simpl in E.
    space_cases c E; reflexivity.
  - destruct c as [[] [] [] [] [] [] [] []]; reflexivity.
Qed.

Lemma finish_app (neg : bool) (m e : Z) (s rest : list ascii) :
  Decimal.finish neg m e (s ++ rest)
  = {| conv := conv (Decimal.finish neg m e s);
       unread := unread (Decimal.finish neg m e s) ++ rest |}.
Proof. unfold Decimal.finish. destruct (Decimal.to_double neg m e); reflexivity. Qed.

(** What follows a field, set off by a space, does not change what the
    numeric stage makes of it. *)
Lemma Decimal_num_get_app (s rest : list ascii) :
  ends_token rest = true ->
  Decimal.num_get (s ++ rest)
  = {| conv := conv (Decimal.num_get s);
       unread := unread (Decimal.num_get s) ++ rest |}.
Proof.
  intros E. unfold Decimal.num_get.
  rewrite (sign_app rest E). destruct (Decimal.sign s) as [neg s1].
  rewrite (digits_app rest E). destruct (Decimal.digits 0 s1) as [[m1 n1] s2].
  rewrite (point_app rest E). destruct (Decimal.point s2) as [s2'|]; cbn [option_map].
  - rewrite (digits_app rest E). destruct (Decimal.digits m1 s2') as [[m2 n2] s3].
    destruct (Nat.eqb (n1 + n2) 0); [reflexivity|].
    rewrite (exponent_mark_app rest E).
    destruct (Decimal.exponent_mark s3) as [s4|]; cbn [option_map].
    + rewrite (sign_app rest E). destruct (Decimal.sign s4) as [eneg s5].
      rewrite (digits_app rest E). destruct (Decimal.digits 0 s5) as [[x nx] s6].
      destruct (Nat.eqb nx 0); [reflexivity|]. apply finish_app.
    + apply finish_app.
  - destruct (Nat.eqb (n1 + 0) 0); [reflexivity|].
    rewrite (exponent_mark_app rest E).
    destruct (Decimal.exponent_mark s2) as [s4|]; cbn [option_map].
    + rewrite (sign_app rest E). destruct (Decimal.sign s4) as [eneg s5].
      rewrite (digits_app rest E). destruct (Decimal.digits 0 s5) as [[x nx] s6].
      destruct (Nat.eqb nx 0); [reflexivity|]. apply finish_app.
    + apply finish_app.
Qed.

(** Every decimal numeral is a numeric token of the decimal stage. *)
Lemma Decimal_reads (tok : list ascii) :
  Decimal.token tok = true ->
  reads Decimal.num_get tok (stores (conv (Decimal.num_get tok))).
Proof.
  unfold Decimal.token. intros H.
  apply andb_prop in H. destruct H as [H Hn].
  apply andb_prop in H. destruct H as [Hb Hc].
  split; [exact Hb|].
  intros rest E. rewrite (Decimal_num_get_app tok rest E).
  destruct (Decimal.num_get tok) as [cv un]. simpl in *.
  destruct un; [|discriminate].
  destruct cv; try discriminate. reflexivity.
Qed.

Lemma Decimal_spaced_fields (toks : list (list ascii)) :
  forallb Decimal.token toks = true ->
  fields Decimal.num_get (Decimal.spaced toks) (map Decimal.value toks) [].
Proof.
  induction toks as [|t ts IH]; intros H; [constructor|].
  simpl in H. apply andb_prop in H. destruct H as [Ht H].
  apply (fields_more Decimal.num_get [" "%char] t (Decimal.value t)
           (Decimal.spaced ts) (map Decimal.value ts) []);
    [reflexivity | exact (Decimal_reads t Ht) | | exact (IH H)].
  destruct ts; reflexivity.
Qed.

(** A line of decimal numerals with single spaces between them gives
    their values to the leading coordinates and 0.0 to the others. *)
Lemma Decimal_line (dataSize : nat) (toks : list (list ascii)) :
  forallb Decimal.token toks = true ->
  parse_record Decimal.num_get dataSize (Decimal.line_of toks)
  = firstn dataSize (map Decimal.value toks ++ repeat zero dataSize).
Proof.
  intros H.
  assert (F : fields Decimal.num_get (Decimal.line_of toks)
                (map Decimal.value toks) []).
  { destruct toks as [|t ts]; [constructor|].
    simpl in H. apply andb_prop in H. destruct H as [Ht H].
    apply (fields_more Decimal.num_get [] t (Decimal.value t)
             (Decimal.spaced ts) (map Decimal.value ts) []);
      [reflexivity | exact (Decimal_reads t Ht) | | exact (Decimal_spaced_fields ts H)].
    destruct ts; reflexivity. }
  rewrite (parse_record_fields Decimal.num_get dataSize _ _ [] [] F
             (ending_blank Decimal.num_get [] eq_refl)).
  now rewrite app_nil_r.
Qed.

(** The tokens [1.5] and [2], a space between them, and whatever follows
    them set off by a space. *)
Lemma fields_1_5__2 (rest : list ascii) :
  ends_token rest = true ->
  fields Decimal.num_get (Decimal.chars "1.5 2" ++ rest) [dbl "1.5"; dbl "2"] rest.
Proof.
  intros H.
  apply (fields_more Decimal.num_get [] (Decimal.chars "1.5") (dbl "1.5")
           (Decimal.chars " 2" ++ rest) [dbl "2"] rest);
    [reflexivity | exact (Decimal_reads (Decimal.chars "1.5") eq_refl) | reflexivity |].
  apply (fields_more Decimal.num_get (Decimal.chars " ") (Decimal.chars "2") (dbl "2")
           rest [] rest);
    [reflexivity | exact (Decimal_reads (Decimal.chars "2") eq_refl) | exact H
    | constructor].
Qed.

(** The line [1.5 2] read into three coordinates, and the line
    [1.5 2 x] read into one. *)
Lemma tokens_fill_leading_coordinates_witness :
  parse_record Decimal.num_get 3 (Decimal.chars "1.5 2") = [dbl "1.5"; dbl "2"; zero]
  /\ parse_record Decimal.num_get 1 (Decimal.chars "1.5 2 x") = [dbl "1.5"].
Proof.
  split.
  - apply (tokens_fill_leading_coordinates Decimal.num_get 3
             (Decimal.chars "1.5 2") [dbl "1.5"; dbl "2"] []);
      [exact (fields_1_5__2 [] eq_refl) | reflexivity | simpl; lia].
  - apply (tokens_fill_leading_coordinates Decimal.num_get 1
             (Decimal.chars "1.5 2 x") [dbl "1.5"; dbl "2"] (Decimal.chars " x"));
      [exact (fields_1_5__2 (Decimal.chars " x") eq_refl) | simpl; lia].
Defined.

(** C9. A line that is not empty and holds only white space does not end
    the record loop: its coordinates are all 0.0 and one estimate, that
    of the zero point, is written for it, after which the loop goes on
    with the next line; a line of length zero ends the loop. *)
Theorem blank_line_is_a_zero_record (num_get : num_get_t) (models : list DET)
    (dataSize : nat) (line : list ascii) :
  is_record line = true ->
  blank line = true ->
  let run text := process num_get models dataSize (stream_of text) in
  let est := estimate num_get models dataSize in
  parse_record num_get dataSize line = repeat zero dataSize
  /\ (forall rest,
        run (line ++ newline :: rest)
        = Some (Evaluate models (repeat zero dataSize) :: map est (records_of rest)))
  /\ run line = Some [Evaluate models (repeat zero dataSize)]
  /\ (forall rest, run (newline :: rest) = Some []).
Proof.
  intros R B. cbv zeta.
  assert (E : parse_record num_get dataSize line = repeat zero dataSize).
  { rewrite (parse_record_fields num_get dataSize line [] line []
               (fields_done num_get line) (ending_blank num_get line B)).
    simpl. rewrite <- (repeat_length zero dataSize) at 1. apply firstn_all. }
  split; [exact E|]. split; [|split].
  - intros rest. rewrite process_spec.
    unfold records_of. rewrite (lines_record line R).
    destruct line as [|c line]; [discriminate|].
    cbn [before_blank is_nil map]. unfold estimate at 1. now rewrite E.
  - rewrite process_spec. unfold records_of. rewrite (lines_last line R).
    destruct line as [|c line]; [discriminate|].
    cbn [before_blank is_nil map]. unfold estimate. now rewrite E.
  - intros rest. rewrite process_spec. reflexivity.
Qed.

(** A line of two spaces, then the record [1.5 2]. *)
Lemma blank_line_is_a_zero_record_witness :
  process Decimal.num_get two_trees 2
    (stream_of (Decimal.chars "  " ++ newline :: Decimal.chars "1.5 2"))
  = Some [Evaluate two_trees [zero; zero];
          estimate Decimal.num_get two_trees 2 (Decimal.chars "1.5 2")].
Proof.
  apply (blank_line_is_a_zero_record Decimal.num_get two_trees 2 (Decimal.chars "  "));
    reflexivity.
Defined.

(** ** A failed extraction *)

Lemma for_upto_invariant {S : Type} (P : S -> Prop) (cond : S -> bool)
    (body : nat -> S -> S) :
  (forall i s, P s -> P (body i s)) ->
  forall n i s, P s -> P (for_upto n i cond body s).
Proof.
  intros H. induction n as [|n IH]; intros i s Hs; simpl; [exact Hs|].
  destruct (cond s); [apply IH, H, Hs | exact Hs].
Qed.

Lemma set_at_length (v : double) (l : vec) :
  forall i, length (set_at i v l) = length l.
Proof.
  induction l as [|x l IH]; intros [|i]; simpl; try reflexivity.
  now rewrite IH.
Qed.

(** A loop left by its condition stays where it is. *)
Lemma for_upto_stopped {S : Type} (cond : S -> bool) (body : nat -> S -> S) (s : S) :
  cond s = false -> forall n i, for_upto n i cond body s = s.
Proof. intros H [|n] i; simpl; [reflexivity | now rewrite H]. Qed.

(** [i + n] turns are [i] turns followed by [n] more. *)
Lemma for_upto_split {S : Type} (cond : S -> bool) (body : nat -> S -> S) (n : nat) :
  forall i j s,
    for_upto (i + n) j cond body s
    = for_upto n (j + i) cond body (for_upto i j cond body s).
Proof.
  induction i as [|i IH]; intros j s.
  - now rewrite Nat.add_0_r.
  - cbn [Nat.add for_upto]. destruct (cond s) eqn:C.
    + rewrite IH. f_equal. lia.
    + now rewrite for_upto_stopped.
Qed.

(** An invariant that follows the index of the loop. *)
Lemma for_upto_indexed {S : Type} (P : nat -> S -> Prop) (cond : S -> bool)
    (body : nat -> S -> S) :
  (forall i s, P i s -> P (Datatypes.S i) (body i s)) ->
  (forall i s, P i s -> P (Datatypes.S i) s) ->
  forall n i s, P i s -> P (i + n)%nat (for_upto n i cond body s).
Proof.
  intros Step Mono. induction n as [|n IH]; intros i s H.
  - now rewrite Nat.add_0_r.
  - cbn [for_upto]. rewrite Nat.add_succ_r.
    destruct (cond s).
    + apply (IH (Datatypes.S i)), Step, H.
    + clear IH. induction n as [|n IHn]; [rewrite Nat.add_0_r; now apply Mono|].
      rewrite Nat.add_succ_r. now apply Mono.
Qed.

Lemma nth_set_at_other (v : double) (d : vec) :
  forall i j, i <> j -> nth j (set_at i v d) zero = nth j d zero.
Proof.
  induction d as [|x d IH]; intros [|i] [|j] N; simpl; try reflexivity.
  - now elim N.
  - apply IH. congruence.
Qed.

Lemma nth_set_at_same (v : double) (d : vec) :
  forall i, (i < length d)%nat -> nth i (set_at i v d) zero = v.
Proof.
  induction d as [|x d IH]; intros [|i] L; simpl in *; try lia.
  - reflexivity.
  - apply IH. lia.
Qed.

Section Turns.

Variables (num_get : num_get_t) (dataSize : nat) (line : list ascii).

Lemma after_turns_length (i : nat) :
  length (data (after_turns num_get dataSize line i)) = dataSize.
Proof.
  unfold after_turns.
  apply (for_upto_invariant (fun p => length (data p) = dataSize)).
  - intros k p Hp. unfold parse_body.
    destruct (extract num_get (line_stream p) (nth k (data p) zero)) as [s v].
    cbn [data]. now rewrite set_at_length.
  - cbn [data]. apply repeat_length.
Qed.

(** The coordinates that the first [i] turns have not reached are 0.0. *)
Lemma after_turns_zeros (i : nat) :
  forall j, (i <= j)%nat -> nth j (data (after_turns num_get dataSize line i)) zero = zero.
Proof.
  unfold after_turns.
  apply (for_upto_indexed
           (fun k p => forall j, (k <= j)%nat -> nth j (data p) zero = zero)
           parse_cond (parse_body num_get)) with (i := 0%nat) (n := i).
  - intros k p H j Hj. unfold parse_body.
    destruct (extract num_get (line_stream p) (nth k (data p) zero)) as [s v].
    cbn [data]. rewrite nth_set_at_other by lia. apply H. lia.
  - intros k p H j Hj. apply H. lia.
  - intros j _. cbn [data]. apply nth_repeat.
Qed.

Lemma parse_record_after_turns (i : nat) :
  (i <= dataSize)%nat ->
  parse_record num_get dataSize line
  = coords num_get (dataSize - i) i
      (line_stream (after_turns num_get dataSize line i))
      (data (after_turns num_get dataSize line i)).
Proof.
  intros H. unfold parse_record, for_range, coords, after_turns.
  replace dataSize with (i + (dataSize - i))%nat at 1 by lia.
  rewrite for_upto_split. cbn [Nat.add].
  destruct (for_upto i 0 parse_cond (parse_body num_get) _) as [s d].
  reflexivity.
Qed.

End Turns.

(** C10 (as amended). For every record and every turn [i] of the loop
    that takes place and whose extraction fails: the point is the
    coordinates as they were before that turn with coordinate [i] set to
    what the extraction left there, so every later coordinate is 0.0
    whatever follows on the line and every earlier one keeps its value;
    when the extraction met characters that are not white space,
    coordinate [i] holds what the numeric stage stores on failure, which
    is 0.0 for characters that are not a number. *)
Theorem failed_extraction_stops_the_record (num_get : num_get_t) (dataSize : nat)
    (line : list ascii) (i : nat) :
  let p := after_turns num_get dataSize line i in
  let x := extract num_get (line_stream p) (nth i (data p) zero) in
  let point := parse_record num_get dataSize line in
  (i < dataSize)%nat ->
  eof (line_stream p) = false ->
  failbit (fst x) = true ->
  point = set_at i (snd x) (data p)
  /\ (forall j, (i < j)%nat -> nth j point zero = zero)
  /\ (forall j, (j < i)%nat -> nth j point zero = nth j (data p) zero)
  /\ nth i point zero = snd x
  /\ (forall c r,
        good (line_stream p) = true -> skipws (buf (line_stream p)) = c :: r ->
        nth i point zero = stores (conv (num_get (c :: r)))
        /\ (conv (num_get (c :: r)) = NoConversion ->
            forall j, (i <= j)%nat -> nth j point zero = zero)).
Proof.
  cbv zeta. intros I E F.
  assert (P : parse_record num_get dataSize line
              = set_at i
                  (snd (extract num_get
                          (line_stream (after_turns num_get dataSize line i))
                          (nth i (data (after_turns num_get dataSize line i)) zero)))
                  (data (after_turns num_get dataSize line i))).
  { rewrite (parse_record_after_turns num_get dataSize line i) by lia.
    replace (dataSize - i)%nat with (S (dataSize - S i)) by lia.
    rewrite coords_step by exact E.
    now apply coords_failed. }
  assert (Later : forall j, (i < j)%nat ->
            nth j (parse_record num_get dataSize line) zero = zero).
  { intros j Hj. rewrite P, nth_set_at_other by lia.
    apply after_turns_zeros. lia. }
  assert (Here : nth i (parse_record num_get dataSize line) zero
                 = snd (extract num_get
                          (line_stream (after_turns num_get dataSize line i))
                          (nth i (data (after_turns num_get dataSize line i)) zero))).
  { rewrite P. apply nth_set_at_same. now rewrite after_turns_length. }
  split; [exact P|]. split; [exact Later|]. split.
  { intros j Hj. rewrite P. apply nth_set_at_other. lia. }
  split; [exact Here|].
  intros c r G S.
  assert (V : nth i (parse_record num_get dataSize line) zero
              = stores (conv (num_get (c :: r)))).
  { rewrite Here. unfold extract. now rewrite G, S. }
  split; [exact V|].
  intros N j Hj. destruct (Nat.eq_dec i j) as [<-|Ne].
  - rewrite V, N. reflexivity.
  - apply Later. lia.
Qed.

(** The records [1.5x 7] and [1.5,2,3]: the second extraction fails on
    the character that abuts the number. *)
Lemma failed_extraction_stops_the_record_witness :
  parse_record Decimal.num_get 3 (Decimal.chars "1.5x 7")
  = [dbl "1.5"; zero; zero]
  /\ nth 2 (parse_record Decimal.num_get 3 (Decimal.chars "1.5,2,3")) zero = zero.
Proof.
  split.
  - exact (proj1 (failed_extraction_stops_the_record Decimal.num_get 3
                    (Decimal.chars "1.5x 7") 1
                    (Nat.lt_lt_succ_r 1 2 (Nat.lt_succ_diag_r 1)) eq_refl eq_refl)).
  - exact (proj1 (proj2 (failed_extraction_stops_the_record Decimal.num_get 3
                           (Decimal.chars "1.5,2,3") 1
                           (Nat.lt_lt_succ_r 1 2 (Nat.lt_succ_diag_r 1))
                           eq_refl eq_refl))
             2%nat (Nat.lt_succ_diag_r 1)).
Defined.

(** After numeric tokens set off by spaces, a failed extraction leaves
    their values, then what the numeric stage stores on failure, then
    0.0 in every later coordinate. *)
Lemma failed_extraction_after_tokens (num_get : num_get_t) (dataSize : nat)
    (line : list ascii) (vs : list double) (rest : list ascii)
    (c : ascii) (r : list ascii) :
  fields num_get line vs rest ->
  skipws rest = c :: r ->
  fails (conv (num_get (c :: r))) = true ->
  parse_record num_get dataSize line
  = firstn dataSize (vs ++ stores (conv (num_get (c :: r))) :: repeat zero dataSize)
  /\ (conv (num_get (c :: r)) = NoConversion ->
      parse_record num_get dataSize line
      = firstn dataSize (vs ++ repeat zero (S dataSize))).
Proof.
  intros F S X.
  assert (E : parse_record num_get dataSize line
              = firstn dataSize
                  (vs ++ stores (conv (num_get (c :: r))) :: repeat zero dataSize)).
  { rewrite (parse_record_fields num_get dataSize line vs rest _ F
               (ending_failure num_get rest c r S X)).
    now rewrite <- app_assoc. }
  split; [exact E|].
  intros N. rewrite E, N. reflexivity.
Qed.

(** The line [1.5 2 x 7] read into four coordinates: [7] is never read. *)
Example failed_extraction_after_two_tokens :
  parse_record Decimal.num_get 4 (Decimal.chars "1.5 2 x 7")
  = [dbl "1.5"; dbl "2"; zero; zero].
Proof.
  apply (failed_extraction_after_tokens Decimal.num_get 4
           (Decimal.chars "1.5 2 x 7") [dbl "1.5"; dbl "2"] (Decimal.chars " x 7")
           "x"%char (Decimal.chars " 7"));
    [exact (fields_1_5__2 (Decimal.chars " x 7") eq_refl)
    | reflexivity | reflexivity | reflexivity].
Qed.

(** C10 (as stated) fails on a number too large for a [double]: the
    extraction fails, and its coordinate is left at the largest finite
    [double], not at 0.0. *)
Lemma out_of_range_token_is_stored :
  fails (conv (Decimal.num_get (Decimal.chars "1e999 7"))) = true
  /\ parse_record Decimal.num_get 2 (Decimal.chars "1e999 7") = [Decimal.DBL_MAX; zero]
  /\ nth 0 (parse_record Decimal.num_get 2 (Decimal.chars "1e999 7")) zero <> zero.
Proof.
  split; [vm_compute; reflexivity|].
  split; [vm_compute; reflexivity|].
  vm_compute. discriminate.
Qed.

(** ** A whole run *)

(** Two records on standard input, then an empty line. *)
Example main_two_records :
  main Decimal.num_get (from_stdin ["a.xml"; "b.xml"]%string)
    {| model_store := fun f => if String.eqb f "a.xml" then Some (flat_tree 2 3 (dbl "0.4"))
                               else Some (flat_tree 1 1 (dbl "0.8"));
       readable := fun _ => None; writable := fun _ => true;
       cin := Decimal.chars "1.5 2" ++ newline :: Decimal.chars "7"
              ++ newline :: newline :: Decimal.chars "2 2" |} []
  = ([(Info, "2 models provided.");
      (Info, "Model loading a.xml..."); (Info, " done.");
      (Info, "Model loading b.xml..."); (Info, " done.");
      (Info, "The estimation will operate on the standard input.");
      (Info, "The estimation will be printed on the standard output.")]%string,
     Next [dbl "0.5"; dbl "0.5"]).
Proof. vm_compute. reflexivity. Qed.

(** * Further properties *)

(** ** The length of a point *)

(** X1. A parsed point has exactly [dataSize] coordinates, whatever the
    line holds and whatever the numeric stage makes of it. *)
Theorem parse_record_length (num_get : num_get_t) (dataSize : nat) (line : list ascii) :
  length (parse_record num_get dataSize line) = dataSize.
Proof.
  unfold parse_record, for_range.
  apply (for_upto_invariant (fun p => length (data p) = dataSize)).
  - intros i p Hp. unfold parse_body.
    destruct (extract num_get (line_stream p) (nth i (data p) zero)) as [s v].
    cbn [data]. now rewrite set_at_length.
  - cbn [data]. apply repeat_length.
Qed.

(** X2. Every loaded tree is queried with a point that has at least as
    many coordinates as the tree has dimensions: the points have
    [dataSize] coordinates, the largest dimension among the trees. *)
Theorem every_tree_fits_the_point (num_get : num_get_t) (w : world)
    (modelFiles : list string) (t : trace) (line : list ascii) :
  let s := Loader.run w modelFiles t in
  Forall (fun tree =>
            (MaxVals_n_elem tree
             <= length (parse_record num_get (Loader.dataSize s) line))%nat)
    (Loader.models s).
Proof.
  cbv zeta. rewrite parse_record_length, Loader_dataSize, Loader_models.
  apply Forall_forall. intros tree Hin.
  assert (L : (list_max (map MaxVals_n_elem (successes w modelFiles))
               <= list_max (map MaxVals_n_elem (successes w modelFiles)))%nat)
    by lia.
  apply list_max_le in L. rewrite Forall_forall in L.
  apply L, in_map, Hin.
Qed.

Lemma ltb_max (a b : nat) :
  Nat.ltb 0 (Nat.max a b) = (Nat.ltb 0 a || Nat.ltb 0 b)%bool.
Proof. destruct a, b; reflexivity. Qed.

(** X3. The assertion of line 86 passes exactly when some loaded tree has
    a positive dimension: trees that were loaded but all have dimension
    0 are turned down like an empty ensemble. *)
Theorem assertion_passes_iff_positive_dimension (w : world)
    (modelFiles : list string) (t : trace) :
  let s := Loader.run w modelFiles t in
  Nat.ltb 0 (Loader.dataSize s)
  = existsb (fun tree => Nat.ltb 0 (MaxVals_n_elem tree)) (Loader.models s).
Proof.
  cbv zeta. rewrite Loader_dataSize, Loader_models.
  induction (successes w modelFiles) as [|tree l IH]; [reflexivity|].
  cbn [map list_max fold_right existsb]. rewrite ltb_max. f_equal. exact IH.
Qed.

(** ** Ensembles without weight *)

Lemma ld_of_size_0 : ld_of_size 0 = S754_zero false.
Proof. reflexivity. Qed.

Lemma ld_mul_zero (x : long_double) :
  zero_or_nan (ld_mul x (S754_zero false)) = true.
Proof. destruct x as [s|s| |s m e]; try destruct s; reflexivity. Qed.

Lemma ld_add_zero_or_nan (x y : long_double) :
  zero_or_nan x = true -> zero_or_nan y = true -> zero_or_nan (ld_add x y) = true.
Proof.
  destruct x as [[]|s| |s m e], y as [[]|s'| |s' m' e']; try discriminate;
    reflexivity.
Qed.

Lemma ld_div_by_zero (x : long_double) :
  zero_or_nan x = true -> ld_div x (S754_zero false) = S754_nan.
Proof. destruct x as [s|s| |s m e]; try discriminate; reflexivity. Qed.

Lemma weightless_sum (data : vec) (models : list DET) :
  forallb (fun m => weight m =? 0) models = true ->
  forall acc, zero_or_nan acc = true ->
    zero_or_nan (fold_left ld_add (map (term data) models) acc) = true.
Proof.
  induction models as [|m models IH]; intros H acc Ha; [exact Ha|].
  simpl in H. apply andb_prop in H. destruct H as [Hm H].
  cbn [map fold_left]. apply (IH H).
  apply ld_add_zero_or_nan; [exact Ha|].
  unfold term. apply Z.eqb_eq in Hm. rewrite Hm, ld_of_size_0.
  apply ld_mul_zero.
Qed.

Lemma weightless_total (models : list DET) :
  forallb (fun m => weight m =? 0) models = true -> total_weight models = 0.
Proof.
  induction models as [|m models IH]; intros H; [reflexivity|].
  simpl in H. apply andb_prop in H. destruct H as [Hm H].
  change (total_weight (m :: models)) with (weight m + total_weight models).
  apply Z.eqb_eq in Hm. rewrite Hm, (IH H). reflexivity.
Qed.

(** X4. When every tree has weight 0 ([End == Start]), and so also when
    there is no tree, the estimate is NaN for every point, whatever the
    values of the trees: [density] is then a zero or NaN and is divided
    by a zero [count]. *)
Theorem weightless_ensemble_gives_nan (models : list DET) (data : vec) :
  forallb (fun m => weight m =? 0) models = true ->
  Evaluate models data = S754_nan.
Proof.
  intros H. unfold Evaluate.
  rewrite reduce_density, reduce_count, (weightless_total models H).
  change (0 mod SIZE_MODULUS) with 0. rewrite ld_of_size_0.
  rewrite ld_div_by_zero; [reflexivity|].
  apply weightless_sum; [exact H | reflexivity].
Qed.

Lemma weightless_ensemble_gives_nan_witness :
  Evaluate [flat_tree 2 0 (dbl "0.4"); flat_tree 2 0 (dbl "0.8")] [zero; zero]
  = S754_nan.
Proof.
  apply (weightless_ensemble_gives_nan
           [flat_tree 2 0 (dbl "0.4"); flat_tree 2 0 (dbl "0.8")] [zero; zero]).
  reflexivity.
Defined.

(** ** The trace of loading *)

Lemma fold_log (w : world) (modelFiles : list string) :
  forall s,
    Loader.log (fold_left (fun s f => load_step w f s) modelFiles s)
    = Loader.log s ++ flat_map (entries w) modelFiles.
Proof.
  induction modelFiles as [|f fs IH]; intros s; simpl.
  - now rewrite app_nil_r.
  - rewrite IH. unfold load_step, Loader.body, entries; simpl.
    destruct (Load w f); simpl; rewrite <- !app_assoc; reflexivity.
Qed.

Lemma Loader_log (w : world) (modelFiles : list string) (t : trace) :
  Loader.log (Loader.run w modelFiles t) = t ++ flat_map (entries w) modelFiles.
Proof. now rewrite Loader_run_fold, fold_log. Qed.

Lemma entries_length (w : world) (modelFiles : list string) :
  length (flat_map (entries w) modelFiles) = (2 * length modelFiles)%nat.
Proof.
  induction modelFiles as [|f fs IH]; [reflexivity|].
  cbn [flat_map]. rewrite length_app, IH. simpl. lia.
Qed.

(** X5. Loading keeps the trace it starts from and adds two entries for
    each identifier, in order: the progress entry naming it, then
    [" done."] or the warning naming it. *)
Theorem loading_trace (w : world) (modelFiles : list string) (t : trace) :
  Loader.log (Loader.run w modelFiles t) = t ++ flat_map (entries w) modelFiles
  /\ length (Loader.log (Loader.run w modelFiles t))
     = (length t + 2 * length modelFiles)%nat.
Proof.
  split; [apply Loader_log|].
  now rewrite Loader_log, length_app, entries_length.
Qed.

(** ** The fatal exits of [main] *)

Lemma fatals_app (t u : trace) : fatals (t ++ u) = fatals t ++ fatals u.
Proof. unfold fatals, texts. now rewrite filter_app, map_app. Qed.

Lemma fatals_entries (w : world) (modelFiles : list string) :
  fatals (flat_map (entries w) modelFiles) = [].
Proof.
  induction modelFiles as [|f fs IH]; [reflexivity|].
  cbn [flat_map]. rewrite fatals_app, IH. unfold entries.
  destruct (Load w f); reflexivity.
Qed.

Lemma fatals_loaded (w : world) (a : cli) : fatals (Loader.log (loaded w a)) = [].
Proof.
  unfold loaded. rewrite Loader_log.
  rewrite fatals_app, fatals_entries. reflexivity.
Qed.

Lemma String_prefix_app (name post : string) :
  String.prefix name (name ++ post) = true.
Proof.
  induction name as [|c name IH]; [destruct post; reflexivity|].
  simpl. destruct (ascii_dec c c) as [_|N]; [exact IH | now elim N].
Qed.

Lemma mentions_prefix (name msg : string) :
  String.prefix name msg = true -> mentions name msg = true.
Proof. intros H. destruct msg; cbn [mentions]; rewrite H; reflexivity. Qed.

Lemma mentions_within (name post : string) :
  forall pre, mentions name (pre ++ name ++ post) = true.
Proof.
  induction pre as [|c pre IH].
  - apply mentions_prefix. exact (String_prefix_app name post).
  - change (String c pre ++ name ++ post)%string
      with (String c (pre ++ name ++ post)).
    cbn [mentions]. rewrite IH. apply orb_true_r.
Qed.

(** The run up to the binding of the output. *)
Lemma main_after_input (num_get : num_get_t) (a : cli) (w : world)
    (modelFiles : list string) (text : list ascii) :
  model_file a = Some modelFiles ->
  Nat.ltb 0 (Loader.dataSize (loaded w a)) = true ->
  input_text w a = Some text ->
  exists t,
    fatals t = []
    /\ main num_get a w []
       = (bind_output w a ;;;
          run_records num_get (Loader.models (loaded w a))
            (Loader.dataSize (loaded w a)) (stream_of text)) t.
Proof.
  intros M D I.
  assert (F : files_of a = modelFiles) by (unfold files_of; now rewrite M).
  unfold loaded in *. rewrite F in *.
  rewrite (main_after_loading num_get a w modelFiles M). cbv zeta. rewrite D.
  pose proof (fatals_loaded w a) as L. unfold loaded in L. rewrite F in L.
  unfold input_text in I. unfold bind_input.
  destruct (test_file a) as [fName|].
  - rewrite I. eexists. split; [|unfold bind at 1 2 3, say, ret; simpl; reflexivity].
    rewrite !fatals_app, L. reflexivity.
  - injection I as <-. eexists.
    split; [|unfold bind at 1 2, say, ret; simpl; reflexivity].
    rewrite !fatals_app, L. reflexivity.
Qed.

(** X7. When the trees give a positive [dataSize] and the input opens, an
    output file that does not open ends the run: the one fatal entry of
    the trace is ["Failed to open <name> for writing!"], which names the
    file, and no record is read. *)
Theorem unwritable_output_is_named (num_get : num_get_t) (a : cli) (w : world)
    (modelFiles : list string) (text : list ascii) (fName : string) :
  model_file a = Some modelFiles ->
  Nat.ltb 0 (Loader.dataSize (loaded w a)) = true ->
  input_text w a = Some text ->
  estimates_file a = Some fName ->
  writable w fName = false ->
  let msg := ("Failed to open " ++ fName ++ " for writing!")%string in
  snd (main num_get a w []) = Halted
  /\ fatals (fst (main num_get a w [])) = [msg]
  /\ mentions fName msg = true.
Proof.
  intros M D I E W. cbv zeta.
  destruct (main_after_input num_get a w modelFiles text M D I) as (t & Ft & R).
  rewrite R. unfold bind_output. rewrite E, W.
  unfold bind, when_, fatal. simpl.
  split; [reflexivity|]. split.
  - rewrite fatals_app, Ft. reflexivity.
  - apply (mentions_within fName " for writing!" "Failed to open ").
Qed.

(** A tree that loads, standard input, and [out.csv] that does not open. *)
Lemma unwritable_output_is_named_witness :
  let w := {| model_store := fun _ => Some (flat_tree 2 3 (dbl "0.4"));
              readable := fun _ => None; writable := fun _ => false; cin := [] |} in
  let a := {| model_file := Some ["a.xml"%string]; test_file := None;
              estimates_file := Some "out.csv"%string |} in
  snd (main Decimal.num_get a w []) = Halted
  /\ fatals (fst (main Decimal.num_get a w []))
     = ["Failed to open out.csv for writing!"%string]
  /\ mentions "out.csv" "Failed to open out.csv for writing!" = true.
Proof.
  cbv zeta.
  apply (unwritable_output_is_named Decimal.num_get _ _ ["a.xml"%string] []
           "out.csv"%string); reflexivity.
Defined.

(** X8. [main] writes at most one fatal entry, that of the first
    condition that holds among: no model file given, [dataSize == 0]
    after loading, an input file that does not open, an output file that
    does not open. It ends normally, with the estimates of the records of
    its input, exactly when none of them holds. *)
Theorem main_diagnosis (num_get : num_get_t) (a : cli) (w : world) :
  fatals (fst (main num_get a w []))
  = match diagnosis w a with Some msg => [msg] | None => [] end
  /\ snd (main num_get a w [])
     = match diagnosis w a, input_text w a with
       | None, Some text =>
           Next (map (estimate num_get (Loader.models (loaded w a))
                        (Loader.dataSize (loaded w a)))
                   (records_of text))
       | _, _ => Halted
       end.
Proof.
  unfold diagnosis.
  destruct (model_file a) as [modelFiles|] eqn:M; cbn [HasParam negb].
  2:{ unfold main. rewrite M. split; reflexivity. }
  destruct (Nat.ltb 0 (Loader.dataSize (loaded w a))) eqn:D; cbn [negb].
  2:{ assert (F : files_of a = modelFiles) by (unfold files_of; now rewrite M).
      pose proof (fatals_loaded w a) as L.
      unfold loaded in D, L. rewrite F in D, L.
      rewrite (main_after_loading num_get a w modelFiles M). cbv zeta. rewrite D.
      cbn [fst snd]. rewrite fatals_app, L. split; reflexivity. }
  destruct (input_text w a) as [text|] eqn:I.
  - destruct (main_after_input num_get a w modelFiles text M D I) as (t & Ft & R).
    rewrite R. unfold bind_output.
    destruct (estimates_file a) as [fName|].
    + destruct (writable w fName).
      * cbv [bind when_ ret negb]. rewrite run_records_spec. cbn [fst snd].
        split; [exact Ft | reflexivity].
      * cbv [bind when_ fatal negb]. cbn [fst snd].
        rewrite fatals_app, Ft. split; reflexivity.
    + cbv [bind say]. rewrite run_records_spec. cbn [fst snd].
      rewrite fatals_app, Ft. split; reflexivity.
  - assert (F : files_of a = modelFiles) by (unfold files_of; now rewrite M).
    pose proof (fatals_loaded w a) as L.
    unfold loaded in D, L. rewrite F in D, L.
    rewrite (main_after_loading num_get a w modelFiles M). cbv zeta. rewrite D.
    unfold input_text in I.
    destruct (test_file a) as [fName|] eqn:T; [|discriminate].
    match goal with
    | |- context [bind (bind_input w a) ?k ?t0] =>
        assert (R : bind (bind_input w a) k t0
                    = (t0 ++ [(Info, ("Processing " ++ fName ++ "...")%string)]
                          ++ [(Fatal, " failed!"%string)], Halted))
          by (unfold bind at 1;
              now rewrite (unreadable_input_is_fatal w a fName t0 T I));
        rewrite R
    end.
    cbn [fst snd]. rewrite !fatals_app, L. split; reflexivity.
Qed.

(** X9. The estimates of complete records do not depend on what follows
    them in the input: the output for records followed by any text is
    their estimates followed by the output for that text. *)
Theorem estimates_of_complete_records_stand (num_get : num_get_t)
    (models : list DET) (dataSize : nat) (recs : list (list ascii)) (tail : list ascii) :
  forallb is_record recs = true ->
  process num_get models dataSize (stream_of (written recs ++ tail))
  = Some (map (estimate num_get models dataSize) recs
          ++ map (estimate num_get models dataSize) (records_of tail)).
Proof.
  intros H. now rewrite process_spec, (records_of_written recs H), map_app.
Qed.

Lemma estimates_of_complete_records_stand_witness :
  let recs := [Decimal.chars "1.5 2"; Decimal.chars "7"] in
  process Decimal.num_get two_trees 2
    (stream_of (written recs ++ Decimal.chars "2 2"))
  = Some (map (estimate Decimal.num_get two_trees 2) recs
          ++ [estimate Decimal.num_get two_trees 2 (Decimal.chars "2 2")]).
Proof.
  cbv zeta.
  apply (estimates_of_complete_records_stand Decimal.num_get two_trees 2
           [Decimal.chars "1.5 2"; Decimal.chars "7"] (Decimal.chars "2 2")).
  reflexivity.
Defined.

(** ** The order of the model files *)

Lemma list_max_Permutation (l l' : list nat) :
  Permutation l l' -> list_max l = list_max l'.
Proof.
  induction 1 as [|x l l' P IH|x y l|l l' l'' P IH P' IH']; simpl;
    [reflexivity | now rewrite IH | lia | congruence].
Qed.

Lemma total_weight_Permutation (l l' : list DET) :
  Permutation l l' -> total_weight l = total_weight l'.
Proof.
  unfold total_weight.
  induction 1 as [|x l l' P IH|x y l|l l' l'' P IH P' IH']; simpl;
    [reflexivity | now rewrite IH | lia | congruence].
Qed.

Lemma successes_Permutation (w : world) (l l' : list string) :
  Permutation l l' -> Permutation (successes w l) (successes w l').
Proof. intros P. unfold successes. now apply Permutation_flat_map. Qed.

(** X6. The order of the model files matters neither to the trees that
    are loaded, up to their order, nor to [dataSize], nor to the sum of
    the weights that divides an estimate. *)
Theorem order_of_model_files (w : world) (modelFiles modelFiles' : list string)
    (t t' : trace) (data : vec) :
  Permutation modelFiles modelFiles' ->
  let s := Loader.run w modelFiles t in
  let s' := Loader.run w modelFiles' t' in
  Permutation (Loader.models s) (Loader.models s')
  /\ Loader.dataSize s = Loader.dataSize s'
  /\ count (reduce (Loader.models s) data) = count (reduce (Loader.models s') data).
Proof.
  intros P. cbv zeta. rewrite !Loader_models, !Loader_dataSize, !reduce_count.
  pose proof (successes_Permutation w _ _ P) as Q.
  split; [exact Q|]. split.
  - apply list_max_Permutation, Permutation_map, Q.
  - now rewrite (total_weight_Permutation _ _ Q).
Qed.

Lemma order_of_model_files_witness :
  let w := {| model_store := fun f => if String.eqb f "a.xml"
                                      then Some (flat_tree 2 3 (dbl "0.4"))
                                      else Some (flat_tree 1 1 (dbl "0.8"));
              readable := fun _ => None; writable := fun _ => true; cin := [] |} in
  Loader.dataSize (Loader.run w ["a.xml"; "b.xml"]%string [])
  = Loader.dataSize (Loader.run w ["b.xml"; "a.xml"]%string []).
Proof.
  cbv zeta.
  apply (order_of_model_files _ ["a.xml"; "b.xml"]%string ["b.xml"; "a.xml"]%string
           [] [] []).
  apply perm_swap.
Defined.

(** ** Teams of workers *)

Lemma nth_error_replace (w : Omp.worker) (l : list Omp.worker) :
  forall i x, nth_error l i = Some x -> nth_error (Omp.replace i w l) i = Some w.
Proof.
  induction l as [|h l IH]; intros [|i] x H; simpl in *; try discriminate.
  - reflexivity.
  - exact (IH i x H).
Qed.

Lemma nth_error_replace_other (w : Omp.worker) (l : list Omp.worker) :
  forall i j, i <> j -> nth_error (Omp.replace i w l) j = nth_error l j.
Proof.
  induction l as [|h l IH]; intros [|i] [|j] N; simpl; try reflexivity.
  - now elim N.
  - apply IH. congruence.
Qed.

Lemma replace_replace (w w' : Omp.worker) (l : list Omp.worker) :
  forall i, Omp.replace i w' (Omp.replace i w l) = Omp.replace i w' l.
Proof.
  induction l as [|h l IH]; intros [|i]; simpl; try reflexivity.
  now rewrite IH.
Qed.

Lemma replace_length (w : Omp.worker) (l : list Omp.worker) :
  forall i, length (Omp.replace i w l) = length l.
Proof.
  induction l as [|h l IH]; intros [|i]; simpl; try reflexivity.
  now rewrite IH.
Qed.

Lemma Omp_run_app (models : list DET) (data : vec) (s1 s2 : list nat) :
  forall t,
    Omp.run models data (s1 ++ s2) t
    = match Omp.run models data s1 t with
      | Some t' => Omp.run models data s2 t'
      | None => None
      end.
Proof.
  induction s1 as [|i s1 IH]; intros t; simpl; [reflexivity|].
  destruct (Omp.step models data i t); [apply IH | reflexivity].
Qed.

(** The four accesses of one iteration, with no other in between, are one
    turn of the loop body. *)
Lemma Omp_iteration (models : list DET) (data : vec) (i m : nat)
    (a : accum) (ws : list Omp.worker) :
  nth_error ws i = Some (fresh_worker m) ->
  Omp.run models data [i; i; i; i] {| Omp.shared := a; Omp.workers := ws |}
  = Some {| Omp.shared := model_body models data m a;
            Omp.workers := Omp.replace i spent_worker ws |}.
Proof.
  intros H. cbn [Omp.run].
  unfold Omp.step at 1. cbn [Omp.workers Omp.shared]. rewrite H.
  cbn [Omp.access fresh_worker Omp.todo Omp.at_].
  unfold Omp.step at 1. cbn [Omp.workers Omp.shared].
  rewrite (nth_error_replace _ ws i _ H).
  cbn [Omp.access Omp.todo Omp.at_]. rewrite replace_replace.
  unfold Omp.step at 1. cbn [Omp.workers Omp.shared].
  rewrite (nth_error_replace _ ws i _ H).
  cbn [Omp.access Omp.todo Omp.at_ count density]. rewrite replace_replace.
  unfold Omp.step at 1. cbn [Omp.workers Omp.shared].
  rewrite (nth_error_replace _ ws i _ H).
  cbn [Omp.access Omp.todo Omp.at_ count density]. rewrite replace_replace.
  reflexivity.
Qed.

Lemma Omp_atomic_run (models : list DET) (data : vec) (order : list nat) :
  NoDup order ->
  forall (a : accum) (ws : list Omp.worker),
    (forall i, In i order -> nth_error ws i = Some (fresh_worker i)) ->
    Omp.run models data (atomic_schedule order)
      {| Omp.shared := a; Omp.workers := ws |}
    = Some {| Omp.shared := fold_left (fun a i => model_body models data i a) order a;
              Omp.workers := fold_left (fun ws i => Omp.replace i spent_worker ws) order ws |}.
Proof.
  induction 1 as [|i order Hi ND IH]; intros a ws F; [reflexivity|].
  change (atomic_schedule (i :: order))
    with ([i; i; i; i] ++ atomic_schedule order).
  rewrite Omp_run_app, (Omp_iteration models data i i a ws (F i (or_introl eq_refl))).
  cbn [fold_left]. apply IH.
  intros j Hj. rewrite nth_error_replace_other.
  - apply F. now right.
  - intros ->. contradiction.
Qed.

Lemma spent_everywhere (order : list nat) :
  forall (ws : list Omp.worker) (j : nat) (x : Omp.worker),
    nth_error ws j = Some x ->
    nth_error (fold_left (fun ws i => Omp.replace i spent_worker ws) order ws) j
    = Some (if in_dec Nat.eq_dec j order then spent_worker else x).
Proof.
  induction order as [|i order IH]; intros ws j x H; [exact H|].
  cbn [fold_left].
  destruct (Nat.eq_dec i j) as [->|N].
  - rewrite (IH _ j spent_worker (nth_error_replace _ ws j x H)).
    destruct (in_dec Nat.eq_dec j (j :: order)) as [_|C]; [|elim C; now left].
    destruct (in_dec Nat.eq_dec j order); reflexivity.
  - rewrite (IH _ j x); [|now rewrite nth_error_replace_other].
    destruct (in_dec Nat.eq_dec j order) as [I|I],
             (in_dec Nat.eq_dec j (i :: order)) as [I'|I']; try reflexivity.
    + elim I'. now right.
    + destruct I' as [E|I']; [now elim N | contradiction].
Qed.

Lemma fold_replace_length (order : list nat) :
  forall ws, length (fold_left (fun ws i => Omp.replace i spent_worker ws) order ws)
             = length ws.
Proof.
  induction order as [|i order IH]; intros ws; [reflexivity|].
  cbn [fold_left]. now rewrite IH, replace_length.
Qed.

Lemma done_nth (ws : list Omp.worker) :
  (forall j, (j < length ws)%nat -> nth_error ws j = Some spent_worker) ->
  forallb (fun w => is_nil (Omp.todo w)) ws = true.
Proof.
  intros H. apply forallb_forall. intros x Hx.
  destruct (In_nth_error ws x Hx) as [j Hj].
  assert (L : (j < length ws)%nat) by (apply nth_error_Some; congruence).
  rewrite (H j L) in Hj. injection Hj as <-. reflexivity.
Qed.

Lemma fold_body_step (models : list DET) (data : vec) (order : list nat) :
  forall a,
    fold_left (fun a i => model_body models data i a) order a
    = fold_left (fun a m => model_step data m a)
        (map (fun i => nth i models no_tree) order) a.
Proof.
  induction order as [|i order IH]; intros a; [reflexivity|].
  cbn [fold_left map]. apply IH.
Qed.

Lemma models_by_index (models : list DET) :
  map (fun i => nth i models no_tree) (seq 0 (length models)) = models.
Proof.
  apply nth_ext with (d := no_tree) (d' := no_tree).
  - now rewrite length_map, length_seq.
  - intros n Hn. rewrite length_map, length_seq in Hn.
    rewrite (nth_indep _ no_tree (nth 0 models no_tree)) by (now rewrite length_map, length_seq).
    rewrite (map_nth (fun i => nth i models no_tree)), seq_nth by exact Hn.
    reflexivity.
Qed.

Lemma start_singles (n : nat) :
  forall j, (j < n)%nat ->
    nth_error (Omp.workers (Omp.start (one_each n))) j = Some (fresh_worker j).
Proof.
  intros j Hj. unfold Omp.start, one_each. cbn [Omp.workers].
  rewrite map_map.
  rewrite (nth_error_map (fun m => {| Omp.todo := [m]; Omp.at_ := Omp.ReadDensity |})).
  rewrite nth_error_nth' with (d := 0%nat) by (now rewrite length_seq).
  rewrite seq_nth by exact Hj. reflexivity.
Qed.

(** X13. When no two iterations interleave (one worker per iteration,
    each performing its four accesses in one go), the iterations may
    run in any order: the execution is complete, [count] is the sum that
    the loop run in index order gives, and [density] is the sum of the
    terms in the order the iterations ran. *)
Theorem omp_atomic_iterations_count_every_weight (models : list DET) (data : vec)
    (order : list nat) :
  Permutation order (seq 0 (length models)) ->
  let final :=
    fold_left (fun a m => model_step data m a)
      (map (fun i => nth i models no_tree) order) accum0 in
  Omp.completes models data (one_each (length models))
    (atomic_schedule order) final
  /\ count final = count (reduce models data)
  /\ density final
     = fold_left ld_add
         (map (term data) (map (fun i => nth i models no_tree) order)) zero.
Proof.
  intros P. cbv zeta.
  assert (ND : NoDup order).
  { apply (Permutation_NoDup (Permutation_sym P)), seq_NoDup. }
  assert (In_lt : forall i, In i order -> (i < length models)%nat).
  { intros i Hi. apply (Permutation_in _ P) in Hi. apply in_seq in Hi. lia. }
  split; [|split].
  - unfold Omp.completes.
    pose proof (Omp_atomic_run models data order ND accum0
                  (Omp.workers (Omp.start (one_each (length models)))))
      as R.
    rewrite fold_body_step in R.
    eexists. split; [apply R|].
    + intros i Hi. apply start_singles, In_lt, Hi.
    + split; [|reflexivity].
      cbn [Omp.workers Omp.done]. unfold Omp.done. cbn [Omp.workers].
      apply done_nth. intros j Hj.
      rewrite fold_replace_length in Hj.
      assert (Hn : (j < length models)%nat).
      { unfold Omp.start, one_each in Hj. cbn [Omp.workers] in Hj.
        now rewrite !length_map, length_seq in Hj. }
      rewrite (spent_everywhere order _ j (fresh_worker j) (start_singles _ j Hn)).
      destruct (in_dec Nat.eq_dec j order) as [_|C]; [reflexivity|].
      elim C. apply (Permutation_in _ (Permutation_sym P)), in_seq. lia.
  - rewrite fold_count, reduce_count by (simpl; pose proof SIZE_MODULUS_pos; lia).
    cbn [count accum0]. f_equal. rewrite Z.add_0_l.
    apply total_weight_Permutation.
    apply Permutation_trans
      with (map (fun i => nth i models no_tree) (seq 0 (length models)));
      [apply Permutation_map, P | rewrite models_by_index; apply Permutation_refl].
  - apply fold_density.
Qed.

Lemma omp_atomic_iterations_count_every_weight_witness :
  Omp.completes two_trees [zero; zero] [[0]; [1]]%nat [1; 1; 1; 1; 0; 0; 0; 0]%nat
    {| density := ld_add (ld_add zero (term [zero; zero] (flat_tree 2 1 (dbl "0.8"))))
                    (term [zero; zero] (flat_tree 2 3 (dbl "0.4")));
       count := 4 |}.
Proof.
  apply (omp_atomic_iterations_count_every_weight two_trees [zero; zero] [1; 0]%nat).
  apply perm_swap.
Defined.

Lemma size_add_0 (m : DET) : size_add 0 (weight m) = weight m.
Proof.
  unfold size_add. rewrite Z.add_0_l. apply Z.mod_small, weight_range.
Qed.

(** X14. For any two trees shared between two workers whose accesses
    alternate, the loop ends with the sums of the second tree alone; so
    whenever the first tree has a non-zero weight the loop with two
    workers is not race-safe. *)
Theorem omp_alternating_workers_lose_the_first (m0 m1 : DET) (data : vec) :
  Omp.completes [m0; m1] data [[0]; [1]]%nat racy_schedule (second_only data m1)
  /\ count (second_only data m1) = weight m1
  /\ (weight m0 <> 0 -> ~ Omp.race_safe [m0; m1] data [[0]; [1]]%nat).
Proof.
  assert (C : Omp.completes [m0; m1] data [[0]; [1]]%nat racy_schedule
                (second_only data m1)).
  { eexists. split; [reflexivity|]. split; reflexivity. }
  split; [exact C|]. split; [apply size_add_0|].
  intros W safe. specialize (safe _ _ C).
  rewrite reduce_count in safe. cbn [second_only count] in safe.
  rewrite size_add_0 in safe.
  change (total_weight [m0; m1]) with (weight m0 + (weight m1 + 0)) in safe.
  pose proof (weight_range m0) as R0. pose proof (weight_range m1) as R1.
  unfold SIZE_MODULUS in *.
  assert (E : (weight m0 + (weight m1 + 0)) mod 2 ^ 64 = weight m1) by congruence.
  clear safe.
  destruct (Z_lt_dec (weight m0 + weight m1) (2 ^ 64)) as [Lt|Ge].
  - rewrite Z.mod_small in E by lia. lia.
  - replace (weight m0 + (weight m1 + 0))
      with ((weight m0 + weight m1 - 2 ^ 64) + 1 * 2 ^ 64) in E by lia.
    rewrite Z.mod_add, Z.mod_small in E by lia. lia.
Qed.

Lemma omp_alternating_workers_lose_the_first_witness :
  ~ Omp.race_safe two_trees [zero; zero] [[0]; [1]]%nat.
Proof.
  apply (omp_alternating_workers_lose_the_first
           (flat_tree 2 3 (dbl "0.4")) (flat_tree 2 1 (dbl "0.8")) [zero; zero]).
  vm_compute. discriminate.
Defined.

Lemma Omp_step_solo_other (models : list DET) (data : vec) (j : nat)
    (a : accum) (w : Omp.worker) :
  Omp.step models data (S j) {| Omp.shared := a; Omp.workers := [w] |} = None.
Proof. unfold Omp.step. cbn [Omp.workers nth_error]. now destruct j. Qed.

(** Every execution of a team of one worker that ends with no iteration
    left has run the loop in index order. *)
Lemma Omp_solo_only (models : list DET) (data : vec) :
  forall (k i : nat) (a : accum) (schedule : list nat) (t : Omp.team),
    Omp.run models data schedule (Omp.solo (seq i k) a) = Some t ->
    Omp.done t = true ->
    Omp.shared t = for_upto k i always (model_body models data) a.
Proof.
  induction k as [|k IH]; intros i a schedule t R D.
  - destruct schedule as [|[|j] s].
    + injection R as <-. reflexivity.
    + cbn [Omp.run Omp.step Omp.solo Omp.workers Omp.shared nth_error
           Omp.access Omp.todo seq] in R.
      discriminate R.
    + cbn [Omp.run] in R. unfold Omp.solo in R.
      rewrite Omp_step_solo_other in R. discriminate R.
  - change (seq i (S k)) with (i :: seq (S i) k) in R.
    destruct schedule as [|[|j] s];
      [injection R as <-; discriminate D | | cbn [Omp.run] in R;
       unfold Omp.solo in R; rewrite Omp_step_solo_other in R; discriminate R].
    cbn [Omp.run] in R.
    change (Omp.step models data 0 (Omp.solo (i :: seq (S i) k) a))
      with (Some {| Omp.shared := a;
                    Omp.workers := [{| Omp.todo := i :: seq (S i) k;
                                       Omp.at_ := Omp.WriteDensity (density a) |}] |})
      in R.
    cbv iota beta in R.
    destruct s as [|[|j] s];
      [injection R as <-; discriminate D | | cbn [Omp.run] in R;
       rewrite Omp_step_solo_other in R; discriminate R].
    cbn [Omp.run Omp.step Omp.workers Omp.shared nth_error Omp.access Omp.todo
         Omp.at_ Omp.replace] in R.
    destruct s as [|[|j] s];
      [injection R as <-; discriminate D | | cbn [Omp.run] in R;
       rewrite Omp_step_solo_other in R; discriminate R].
    cbn [Omp.run Omp.step Omp.workers Omp.shared nth_error Omp.access Omp.todo
         Omp.at_ Omp.replace] in R.
    destruct s as [|[|j] s];
      [injection R as <-; discriminate D | | cbn [Omp.run] in R;
       rewrite Omp_step_solo_other in R; discriminate R].
    cbn [Omp.run Omp.step Omp.workers Omp.shared nth_error Omp.access Omp.todo
         Omp.at_ Omp.replace count density] in R.
    cbn [for_upto always].
    exact (IH (S i) (model_body models data i a) s t R D).
Qed.

(** X12. With a team of one worker the loop over the models is
    race-safe: the schedule of its accesses in order is a complete
    execution, and every complete execution ends with the sums of the
    loop run in index order. *)
Theorem omp_single_worker_is_race_safe (models : list DET) (data : vec) :
  Omp.completes models data [seq 0 (length models)]
    (repeat 0%nat (4 * length models)) (reduce models data)
  /\ (forall schedule final,
        Omp.completes models data [seq 0 (length models)] schedule final ->
        final = reduce models data)
  /\ Omp.race_safe models data [seq 0 (length models)].
Proof.
  assert (U : forall schedule final,
             Omp.completes models data [seq 0 (length models)] schedule final ->
             final = reduce models data).
  { intros schedule final (t & R & D & <-).
    exact (Omp_solo_only models data (length models) 0 accum0 schedule t R D). }
  split; [apply Omp_solo_completes|]. split; [exact U|].
  intros schedule final C. now rewrite (U schedule final C).
Qed.

(** ** What the record loop leaves in the stream *)

Lemma read_line_record (r : list ascii) :
  is_record r = true ->
  forall tail, read_line (r ++ newline :: tail) = (r, tail, false).
Proof.
  unfold is_record. intros H tail.
  apply andb_prop in H. destruct H as [_ H].
  induction r as [|c r IH]; simpl in *.
  - reflexivity.
  - apply andb_prop in H. destruct H as [Hc H].
    destruct (Ascii.eqb c newline); [discriminate|].
    now rewrite (IH H).
Qed.

Lemma written_length (recs : list (list ascii)) (tail : list ascii) :
  (length tail <= length (written recs ++ tail))%nat.
Proof. rewrite length_app. lia. Qed.

Section Unread.

Variables (num_get : num_get_t) (models : list DET) (dataSize : nat).

Lemma record_loop_unread (recs : list (list ascii)) :
  forallb is_record recs = true ->
  forall (rest str : list ascii) (out : list double) (bound : nat),
    (length (written recs ++ newline :: rest) < bound)%nat ->
    record_loop num_get bound models dataSize
      {| input := stream_of (written recs ++ newline :: rest);
         line_string := str; output := out |}
    = Some {| input := stream_of rest; line_string := [];
              output := out ++ map (estimate num_get models dataSize) recs |}.
Proof.
  induction recs as [|r recs IH]; intros H rest str out bound B.
  - destruct bound as [|k]; [lia|].
    cbn [written flat_map app record_loop input line_string output].
    change (good (stream_of (newline :: rest))) with true. cbv iota.
    unfold getline. change (good (stream_of (newline :: rest))) with true.
    cbv iota. cbn [buf stream_of read_line].
    change (Ascii.eqb newline newline) with true. cbv iota.
    cbn [length Nat.eqb map]. now rewrite app_nil_r.
  - simpl in H. apply andb_prop in H. destruct H as [Hr H].
    destruct bound as [|k]; [lia|].
    assert (E : written (r :: recs) ++ newline :: rest
                = r ++ newline :: (written recs ++ newline :: rest)).
    { unfold written. cbn [flat_map]. now rewrite <- !app_assoc. }
    rewrite E in *.
    cbn [record_loop input line_string output].
    change (good (stream_of (r ++ newline :: written recs ++ newline :: rest)))
      with true. cbv iota.
    unfold getline.
    change (good (stream_of (r ++ newline :: written recs ++ newline :: rest)))
      with true. cbv iota.
    cbn [buf stream_of]. rewrite (read_line_record r Hr).
    rewrite is_nil_length.
    destruct r as [|c r]; [discriminate|]. cbn [is_nil andb].
    change {| buf := written recs ++ newline :: rest; eofbit := false; failbit := false |}
      with (stream_of (written recs ++ newline :: rest)).
    rewrite (IH H rest (c :: r) _ k).
    + cbn [map]. rewrite <- app_assoc. reflexivity.
    + rewrite length_app in B. simpl in B. lia.
Qed.

End Unread.

(** X10. After records and an empty line the record loop leaves the
    stream good and positioned just after the empty line: what follows
    is not consumed. *)
Theorem record_loop_leaves_the_rest_unread (num_get : num_get_t) (models : list DET)
    (dataSize : nat) (recs : list (list ascii)) (rest : list ascii) :
  forallb is_record recs = true ->
  let text := written recs ++ newline :: rest in
  exists p,
    record_loop num_get (S (length text)) models dataSize
      {| input := stream_of text; line_string := []; output := [] |} = Some p
    /\ buf (input p) = rest
    /\ good (input p) = true
    /\ output p = map (estimate num_get models dataSize) recs.
Proof.
  intros H. cbv zeta. eexists. split.
  - apply (record_loop_unread num_get models dataSize recs H rest [] []). lia.
  - repeat split.
Qed.

Lemma record_loop_leaves_the_rest_unread_witness :
  let text := written [Decimal.chars "1.5 2"] ++ newline :: Decimal.chars "7" in
  exists p,
    record_loop Decimal.num_get (S (length text)) two_trees 2
      {| input := stream_of text; line_string := []; output := [] |} = Some p
    /\ buf (input p) = Decimal.chars "7"
    /\ good (input p) = true
    /\ output p = map (estimate Decimal.num_get two_trees 2) [Decimal.chars "1.5 2"].
Proof.
  apply (record_loop_leaves_the_rest_unread Decimal.num_get two_trees 2
           [Decimal.chars "1.5 2"] (Decimal.chars "7")).
  reflexivity.
Defined.

(** ** White space before a record *)

Lemma skipws_app_blank (ws : list ascii) :
  blank ws = true -> forall line, skipws (ws ++ line) = skipws line.
Proof.
  induction ws as [|c ws IH]; intros H line; [reflexivity|].
  simpl in H. apply andb_prop in H. destruct H as [Hc H].
  simpl. rewrite Hc. now apply IH.
Qed.

Lemma extract_buf (num_get : num_get_t) (s s' : istream) (x : double) :
  good s = true -> good s' = true -> skipws (buf s) = skipws (buf s') ->
  extract num_get s x = extract num_get s' x.
Proof. intros G G' E. unfold extract. now rewrite G, G', E. Qed.

(** X11. White space before a record is ignored: the coordinates are
    those of the record without it. *)
Theorem leading_space_is_ignored (num_get : num_get_t) (dataSize : nat)
    (ws line : list ascii) :
  blank ws = true ->
  parse_record num_get dataSize (ws ++ line) = parse_record num_get dataSize line.
Proof.
  intros B. unfold parse_record, for_range.
  destruct dataSize as [|n]; [reflexivity|].
  cbn [for_upto]. unfold parse_cond at 1 3. cbn [line_stream eof eofbit stream_of negb].
  unfold parse_body at 2 4. cbn [line_stream data].
  rewrite (extract_buf num_get (stream_of (ws ++ line)) (stream_of line));
    [reflexivity | reflexivity | reflexivity |].
  cbn [buf stream_of]. now apply skipws_app_blank.
Qed.

Lemma leading_space_is_ignored_witness :
  parse_record Decimal.num_get 3 (Decimal.chars "   1.5 2")
  = parse_record Decimal.num_get 3 (Decimal.chars "1.5 2").
Proof.
  apply (leading_space_is_ignored Decimal.num_get 3 (Decimal.chars "   ")
           (Decimal.chars "1.5 2")).
  reflexivity.
Defined.
